(** * coerce: binding of map[string]interface{} values into struct fields

    A shallow embedding of [coerce.go] (package [coerce]) and the
    properties of its binder [Struct], its single-value entry point [Var],
    the typed wrappers, the key resolver [findVal] and the unit-suffix
    parser [getBytes].

    Go strings are byte sequences: they are modelled by [string] (a list
    of [ascii] bytes), indexed and sliced by byte position.  Integers are
    [Z] with the wrap-around of each width written out.  float64 values
    are IEEE binary64 numbers, [spec_float] with precision 53.  A Go
    [(T, error)] result, which may also end in a run-time panic, is a
    value of [res T]. *)

From Stdlib Require Import ZArith Lia Ascii String List Bool.
From Stdlib Require Import Floats.SpecFloat.
From stdpp Require Import base decidable option list strings gmap.


Local Open Scope Z_scope.

(** ** Results *)

(** [strconv.ErrSyntax] and [strconv.ErrRange]. *)
Inductive numerr := ErrSyntax | ErrRange.

(** The error values the package produces or passes on:
    [*strconv.NumError] and the text-only errors of [fmt.Errorf] and
    [errors.New]. *)
Inductive error :=
| NumError (Func Num : string) (Err : numerr)
| errorString (s : string).

(** Outcome of a call returning [(T, error)]: a value with a nil error,
    a non-nil error, or a run-time panic. *)
Inductive res (A : Type) :=
| Ok (a : A)
| Err (e : error)
| Panic (msg : string).
Arguments Ok {A} a.
Arguments Err {A} e.
Arguments Panic {A} msg.

#[global] Instance res_bind : MBind res := fun A B (k : A -> res B) r =>
  match r with
  | Ok a => k a
  | Err e => Err e
  | Panic m => Panic m
  end.
#[global] Instance res_ret : MRet res := fun A a => Ok a.

(** A library result [(T, error)], which cannot panic, as a [res]. *)
Definition of_sum {A} (r : A + error) : res A :=
  match r with
  | inl a => Ok a
  | inr e => Err e
  end.

Definition is_Ok {A} (r : res A) : bool :=
  match r with Ok _ => true | _ => false end.
Definition is_Panic {A} (r : res A) : bool :=
  match r with Panic _ => true | _ => false end.

(** ** Byte strings *)

Definition len (s : string) : nat := String.length s.

(** [s[len(s)-1]]; [None] stands for the index-out-of-range panic. *)
Definition last_byte (s : string) : option ascii :=
  match len s with
  | O => None
  | S n => String.get n s
  end.

(** [s[:len(s)-k]] for [k <= len(s)]. *)
Definition drop_last (k : nat) (s : string) : string :=
  substring 0 (len s - k) s.

Definition byte (c : ascii) : Z := Z.of_nat (nat_of_ascii c).
Definition of_byte (z : Z) : ascii := ascii_of_nat (Z.to_nat z).

Definition in_range (lo hi : ascii) (c : ascii) : bool :=
  (byte lo <=? byte c) && (byte c <=? byte hi).

(** [strings.ToUpper(string(c))] for a byte [c], as far as the comparison
    with an ASCII capital can see it: an ASCII lower-case letter becomes
    its capital; every other byte below 0x80 is unchanged; for a byte from
    0x80 on the Go result is a multi-byte string, never equal to a one-byte
    ASCII string, and the byte itself stands for it. *)
Definition ToUpper_byte (c : ascii) : ascii :=
  if in_range "a" "z" c then of_byte (byte c - 32) else c.

(** [string(c) == strings.ToLower(string(c))] for a byte [c]:
    [string(c)] is the Latin-1 rune of that value, and the runes with a
    distinct lower case are A-Z and U+00C0..U+00DE except U+00D7. *)
Definition is_own_lower (c : ascii) : bool :=
  negb (in_range "A" "Z" c
        || ((192 <=? byte c) && (byte c <=? 222) && negb (byte c =? 215))).

(** ** Machine integers *)

Definition to_uint (bits : Z) (x : Z) : Z := x mod 2 ^ bits.
Definition to_int (bits : Z) (x : Z) : Z :=
  (x + 2 ^ (bits - 1)) mod 2 ^ bits - 2 ^ (bits - 1).

Definition int64 := to_int 64.
Definition uint64 := to_uint 64.

Definition maxUint64 : Z := 2 ^ 64 - 1.

(** ** reflect: kinds, types and values *)

Inductive Kind :=
| KInvalid | KBool
| KInt | KInt8 | KInt16 | KInt32 | KInt64
| KUint | KUint8 | KUint16 | KUint32 | KUint64 | KUintptr
| KFloat32 | KFloat64 | KComplex64 | KComplex128
| KArray | KChan | KFunc | KInterface | KMap | KPtr | KSlice
| KString | KStruct | KUnsafePointer.

(** [Kind.String]. *)
Definition Kind_String (k : Kind) : string :=
  match k with
  | KInvalid => "invalid" | KBool => "bool"
  | KInt => "int" | KInt8 => "int8" | KInt16 => "int16"
  | KInt32 => "int32" | KInt64 => "int64"
  | KUint => "uint" | KUint8 => "uint8" | KUint16 => "uint16"
  | KUint32 => "uint32" | KUint64 => "uint64" | KUintptr => "uintptr"
  | KFloat32 => "float32" | KFloat64 => "float64"
  | KComplex64 => "complex64" | KComplex128 => "complex128"
  | KArray => "array" | KChan => "chan" | KFunc => "func"
  | KInterface => "interface" | KMap => "map" | KPtr => "ptr"
  | KSlice => "slice" | KString => "string" | KStruct => "struct"
  | KUnsafePointer => "unsafe.Pointer"
  end.

(** The five integer sizes: [int]/[uint] and the sized ones. *)
Inductive isize := I | I8 | I16 | I32 | I64.

(** [strconv.IntSize] of a 64-bit platform. *)
Definition IntSize : Z := 64.

Definition size_bits (w : isize) : Z :=
  match w with I => IntSize | I8 => 8 | I16 => 16 | I32 => 32 | I64 => 64 end.

(** The declared types of fields and of dynamic values: the built-in
    scalars, [time.Duration], slices and the empty interface. *)
Inductive type :=
| TBool
| TInt (w : isize)
| TUint (w : isize)
| TFloat32
| TFloat64
| TString
| TDuration
| TSlice (elem : type)
| TInterface.

#[global] Instance numerr_eq_dec : EqDecision numerr.
Proof. solve_decision. Defined.
#[global] Instance Kind_eq_dec : EqDecision Kind.
Proof. solve_decision. Defined.
#[global] Instance isize_eq_dec : EqDecision isize.
Proof. solve_decision. Defined.
#[global] Instance type_eq_dec : EqDecision type.
Proof. solve_decision. Defined.

(** [Type.Kind]. *)
Definition kind_of (t : type) : Kind :=
  match t with
  | TBool => KBool
  | TInt I => KInt | TInt I8 => KInt8 | TInt I16 => KInt16
  | TInt I32 => KInt32 | TInt I64 => KInt64
  | TUint I => KUint | TUint I8 => KUint8 | TUint I16 => KUint16
  | TUint I32 => KUint32 | TUint I64 => KUint64
  | TFloat32 => KFloat32 | TFloat64 => KFloat64
  | TString => KString
  | TDuration => KInt64
  | TSlice _ => KSlice
  | TInterface => KInterface
  end.

(** [Type.Bits] on the numeric types. *)
Definition Bits (t : type) : Z :=
  match t with
  | TInt w | TUint w => size_bits w
  | TFloat32 => 32
  | TFloat64 | TDuration => 64
  | _ => 0
  end.

(** [Type.String]. *)
Fixpoint type_String (t : type) : string :=
  match t with
  | TBool => "bool"
  | TInt w => Kind_String (kind_of (TInt w))
  | TUint w => Kind_String (kind_of (TUint w))
  | TFloat32 => "float32"
  | TFloat64 => "float64"
  | TString => "string"
  | TDuration => "time.Duration"
  | TSlice e => "[]" +:+ type_String e
  | TInterface => "interface {}"
  end.

(** [V.AssignableTo(T)] on these types: identical types, or [T] is the
    empty interface. *)
Definition AssignableTo (v t : type) : bool :=
  bool_decide (v = t) || bool_decide (t = TInterface).

(** Dynamic values, the contents of an [interface{}]; [Nil] is the nil
    interface.  A slice carries its element type; the elements of a
    [[]interface{}] are arbitrary dynamic values.  A nil slice and an empty
    slice are not distinguished. *)
#[warnings="-register-all"]
Inductive val :=
| Nil
| VBool (b : bool)
| VInt (w : isize) (n : Z)
| VUint (w : isize) (n : Z)
| VFloat32 (f : spec_float)
| VFloat64 (f : spec_float)
| VString (s : string)
| VDuration (n : Z)
| VSlice (elem : type) (l : list val).

(** The dynamic type; [None] for the nil interface. *)
Definition typeof (v : val) : option type :=
  match v with
  | Nil => None
  | VBool _ => Some TBool
  | VInt w _ => Some (TInt w)
  | VUint w _ => Some (TUint w)
  | VFloat32 _ => Some TFloat32
  | VFloat64 _ => Some TFloat64
  | VString _ => Some TString
  | VDuration _ => Some TDuration
  | VSlice e _ => Some (TSlice e)
  end.

(** [reflect.Zero(t)]. *)
Definition Zero (t : type) : val :=
  match t with
  | TBool => VBool false
  | TInt w => VInt w 0
  | TUint w => VUint w 0
  | TFloat32 => VFloat32 (S754_zero false)
  | TFloat64 => VFloat64 (S754_zero false)
  | TString => VString ""
  | TDuration => VDuration 0
  | TSlice e => VSlice e []
  | TInterface => Nil
  end.

(** ** The library operations the package calls *)

(** Operations of [fmt], [strconv], [time] and of the float conversion
    that the package calls and that are defined outside it.  They are
    parameters of the development: every theorem stated for a [GoLib]
    holds for each implementation of them.
    - [Sprintf pat name] is [fmt.Sprintf(pat, name)] with the one string
      operand [name];
    - [Quote] is [strconv.Quote];
    - [ParseFloat s bitSize] is [strconv.ParseFloat], giving the float or
      the error;
    - [ParseDuration] is [time.ParseDuration], in nanoseconds;
    - [FormatFloat f bitSize] is the [%v] rendering of a float;
    - [Duration_String] is [time.Duration.String];
    - [float_overflow_int64] and [float_overflow_uint64] give the
      conversions [int64(f)] and [uint64(f)] where the Go specification
      leaves them to the implementation (value out of range, NaN). *)
Class GoLib := {
  Sprintf : string -> string -> string;
  Quote : string -> string;
  ParseFloat : string -> Z -> spec_float + error;
  ParseDuration : string -> Z + error;
  FormatFloat : spec_float -> Z -> string;
  Duration_String : Z -> string;
  float_overflow_int64 : spec_float -> Z;
  float_overflow_uint64 : spec_float -> Z;
}.

(** The newline and the double quote. *)
Definition nl : string := String (ascii_of_nat 10) EmptyString.
Definition dquote : string := String (ascii_of_nat 34) EmptyString.

(** ** strconv on integers, base 10 *)

Module strconv.

Definition is_digit (c : ascii) : bool := in_range "0" "9" c.
Definition digit_val (c : ascii) : Z := byte c - 48.

(** [maxUint64/10 + 1], the smallest [n] with [n*10 > maxUint64]. *)
Definition cutoff : Z := maxUint64 / 10 + 1.

(** The digit loop of [ParseUint] for base 10, where [base0] is false:
    a byte that is no decimal digit (a letter is a digit of value at
    least 10, an underscore is not accepted) is a syntax error. *)
Fixpoint ParseUint_loop (maxVal : Z) (s : string) (n : Z) : Z + numerr :=
  match s with
  | EmptyString => inl n
  | String c s' =>
      if is_digit c then
        if cutoff <=? n then inr ErrRange
        else
          let n := n * 10 in
          let n1 := uint64 (n + digit_val c) in
          if (n1 <? n) || (maxVal <? n1) then inr ErrRange
          else ParseUint_loop maxVal s' n1
      else inr ErrSyntax
  end.

(** The value and error kind of [ParseUint(s, 10, bitSize)]. *)
Definition ParseUint_core (s : string) (bitSize : Z) : Z + numerr :=
  if String.eqb s "" then inr ErrSyntax
  else ParseUint_loop (2 ^ bitSize - 1) s 0.

Definition ParseUint (s : string) (bitSize : Z) : res Z :=
  match ParseUint_core s bitSize with
  | inl n => Ok n
  | inr e => Err (NumError "ParseUint" s e)
  end.

(** [ParseInt(s, 10, bitSize)]. *)
Definition ParseInt (s0 : string) (bitSize : Z) : res Z :=
  match s0 with
  | EmptyString => Err (NumError "ParseInt" s0 ErrSyntax)
  | String c rest =>
      let neg := Ascii.eqb c "-" in
      let s := if Ascii.eqb c "+" || neg then rest else s0 in
      match ParseUint_core s bitSize with
      | inr ErrSyntax => Err (NumError "ParseInt" s0 ErrSyntax)
      | r =>
          let un := match r with inl n => n | inr _ => 2 ^ bitSize - 1 end in
          let cutoff := 2 ^ (bitSize - 1) in
          if negb neg && (cutoff <=? un) then
            Err (NumError "ParseInt" s0 ErrRange)
          else if neg && (cutoff <? un) then
            Err (NumError "ParseInt" s0 ErrRange)
          else
            let n := int64 un in
            Ok (if neg then int64 (- n) else n)
      end
  end.

(** Decimal digits of a non-negative number, most significant first. *)
Fixpoint digits (fuel : nat) (n : Z) : string :=
  match fuel with
  | O => ""
  | S fuel' =>
      if n <? 10 then String (of_byte (48 + n)) ""
      else digits fuel' (n / 10) +:+ String (of_byte (48 + n mod 10)) ""
  end.

(** [FormatUint(n, 10)] and [FormatInt(n, 10)]. *)
Definition FormatUint (n : Z) : string := digits (S (Z.to_nat (Z.log2 n))) n.
Definition FormatInt (n : Z) : string :=
  if n <? 0 then "-" +:+ FormatUint (- n) else FormatUint n.

End strconv.

(** ** Floats *)

Definition float64_of_int (z : Z) : spec_float := binary_normalize 53 1024 z 0 false.
Definition float64_mul : spec_float -> spec_float -> spec_float := SFmul 53 1024.

(** The integer part of a finite float, toward zero. *)
Definition trunc (f : spec_float) : option Z :=
  match f with
  | S754_zero _ => Some 0
  | S754_finite s m e => Some (cond_Zopp s (Z.shiftl (Zpos m) e))
  | _ => None
  end.

Section Engine.
Context `{GoLib}.

(** [int64(f)] and [uint64(f)] for a float64 [f]. *)
Definition float64_to_int64 (f : spec_float) : Z :=
  match trunc f with
  | Some z =>
      if (- 2 ^ 63 <=? z) && (z <? 2 ^ 63) then z
      else int64 (float_overflow_int64 f)
  | None => int64 (float_overflow_int64 f)
  end.

Definition float64_to_uint64 (f : spec_float) : Z :=
  match trunc f with
  | Some z =>
      if (0 <=? z) && (z <? 2 ^ 64) then z
      else uint64 (float_overflow_uint64 f)
  | None => uint64 (float_overflow_uint64 f)
  end.

(** [float32(f)]: rounding to binary32. *)
Definition float32_of_float64 (f : spec_float) : spec_float :=
  match f with
  | S754_finite s m e => binary_round 24 128 s m e
  | _ => f
  end.

(** ** Errors and formatting *)

Definition numerr_text (e : numerr) : string :=
  match e with
  | ErrSyntax => "invalid syntax"
  | ErrRange => "value out of range"
  end.

(** [err.Error()]. *)
Definition Error (e : error) : string :=
  match e with
  | NumError f n e =>
      "strconv." +:+ f +:+ ": parsing " +:+ Quote n +:+ ": " +:+ numerr_text e
  | errorString s => s
  end.

(** [fmt.Sprintf("%v", v)]. *)
Fixpoint Sprint (v : val) : string :=
  match v with
  | Nil => "<nil>"
  | VBool b => if b then "true" else "false"
  | VInt _ n | VUint _ n => strconv.FormatInt n
  | VFloat32 f => FormatFloat f 32
  | VFloat64 f => FormatFloat f 64
  | VString s => s
  | VDuration n => Duration_String n
  | VSlice _ l => "[" +:+ String.concat " " (map Sprint l) +:+ "]"
  end.

(** ** Setters of reflect.Value *)

Definition is_int_kind (k : Kind) : bool :=
  match k with KInt | KInt8 | KInt16 | KInt32 | KInt64 => true | _ => false end.
Definition is_uint_kind (k : Kind) : bool :=
  match k with KUint | KUint8 | KUint16 | KUint32 | KUint64 => true | _ => false end.
Definition is_float_kind (k : Kind) : bool :=
  match k with KFloat32 | KFloat64 => true | _ => false end.

(** [vto.SetInt(x)]: stores [x] narrowed to the width of the slot, with
    no range check; panics on a slot that is not of an Int kind. *)
Definition SetInt (t : type) (x : Z) : res val :=
  match t with
  | TInt w => Ok (VInt w (to_int (size_bits w) x))
  | TDuration => Ok (VDuration (to_int 64 x))
  | _ => Panic ("reflect: call of reflect.Value.SetInt on " +:+ Kind_String (kind_of t) +:+ " Value")
  end.

Definition SetUint (t : type) (x : Z) : res val :=
  match t with
  | TUint w => Ok (VUint w (to_uint (size_bits w) x))
  | _ => Panic ("reflect: call of reflect.Value.SetUint on " +:+ Kind_String (kind_of t) +:+ " Value")
  end.

Definition SetFloat (t : type) (x : spec_float) : res val :=
  match t with
  | TFloat32 => Ok (VFloat32 (float32_of_float64 x))
  | TFloat64 => Ok (VFloat64 x)
  | _ => Panic ("reflect: call of reflect.Value.SetFloat on " +:+ Kind_String (kind_of t) +:+ " Value")
  end.

(** ** getBytes *)

(** The constants [b], [k], [m], [g], [t] and the [switch] on the
    upper-cased last byte. *)
Definition mult_of (c : ascii) : option Z :=
  let b := 1 in
  let k := Z.shiftl b 10 in
  let m := Z.shiftl k 10 in
  let g := Z.shiftl m 10 in
  let t := Z.shiftl g 10 in
  let u := ToUpper_byte c in
  if Ascii.eqb u "B" then Some b
  else if Ascii.eqb u "K" then Some k
  else if Ascii.eqb u "M" then Some m
  else if Ascii.eqb u "G" then Some g
  else if Ascii.eqb u "T" then Some t
  else None.

Definition getBytes (s : string) (err : error) : res Z :=
  match last_byte s with
  | None => Panic "runtime error: index out of range [-1]"
  | Some c =>
      match mult_of c with
      | None => Err err
      | Some mult =>
          match strconv.ParseInt (drop_last 1 s) 64 with
          | Ok ival => Ok (int64 (ival * mult))
          | _ =>
              fval ← of_sum (ParseFloat (drop_last 1 s) 64);
              Ok (float64_to_int64 (float64_mul fval (float64_of_int mult)))
          end
      end
  end.

(** ** unmarshallString, unmarshallFloat, unmarshall *)

Definition unmarshallString (tto : type) (s : string) : res val :=
  if String.eqb (type_String tto) "time.Duration" then
    d ← of_sum (ParseDuration s); Ok (VDuration d)
  else if is_int_kind (kind_of tto) then
    match strconv.ParseInt s (Bits tto) with
    | Ok ival => SetInt tto ival
    | Err err => ival ← getBytes s err; SetInt tto ival
    | Panic p => Panic p
    end
  else if is_uint_kind (kind_of tto) then
    match strconv.ParseUint s (Bits tto) with
    | Ok uval => SetUint tto uval
    | Err err => ival ← getBytes s err; SetUint tto (uint64 ival)
    | Panic p => Panic p
    end
  else if is_float_kind (kind_of tto) then
    fval ← of_sum (ParseFloat s (Bits tto)); SetFloat tto fval
  else
    Err (errorString ("don't know how to unmarshall string to " +:+ type_String tto +:+ nl)).

Definition unmarshallFloat (tto : type) (f : spec_float) : res val :=
  if is_int_kind (kind_of tto) then SetInt tto (float64_to_int64 f)
  else if is_uint_kind (kind_of tto) then SetUint tto (float64_to_uint64 f)
  else Err (errorString ("don't know how to unmarshall float to " +:+ type_String tto +:+ nl)).

(** A [reflect.Value] read as a source.  [Concrete v] is
    [reflect.ValueOf(v)], or an element [v] of a slice of a concrete
    element type: its type is the dynamic type of [v], and it is the zero
    Value when [v] is nil.  [Boxed v] is an element of a [[]interface{}]:
    its type is [interface{}] and its Kind is Interface, whatever the
    [v] it holds. *)
Inductive Value :=
| Concrete (v : val)
| Boxed (v : val).

(** [vfrom.Type()]; [None] stands for the panic on the zero Value. *)
Definition Value_Type (vfrom : Value) : option type :=
  match vfrom with
  | Concrete v => typeof v
  | Boxed _ => Some TInterface
  end.

(** [vfrom.Interface()]. *)
Definition Interface (vfrom : Value) : val :=
  match vfrom with Concrete v | Boxed v => v end.

(** [vv.Index(j)] where [x] is element [j] of a slice of element type [ts]. *)
Definition Index (ts : type) (x : val) : Value :=
  if bool_decide (ts = TInterface) then Boxed x else Concrete x.

(** [unmarshall(vto, vfrom)] for a slot [vto] of type [tto]: [Ok v] sets
    the slot to [v]; on an error or a panic the slot is not written. *)
Definition unmarshall (tto : type) (vfrom : Value) : res val :=
  match Value_Type vfrom with
  | None => Panic "reflect: call of reflect.Value.Type on zero Value"
  | Some tfrom =>
      if AssignableTo tfrom tto then Ok (Interface vfrom)
      else if bool_decide (kind_of tto = KString) then
        Ok (VString (Sprint (Interface vfrom)))
      else
        match vfrom with
        | Concrete (VString s) => unmarshallString tto s
        | Concrete (VFloat32 f | VFloat64 f) => unmarshallFloat tto f
        | _ =>
            Err (errorString ("Don't know how to unmarshall " +:+ type_String tfrom
                              +:+ " to " +:+ type_String tto +:+ nl))
        end
  end.

(** ** Var and the typed wrappers *)

(** [Var(pto, from)] for [pto] pointing to a variable of type [tto]:
    [Ok v] leaves [v] in the variable. *)
Definition Var (tto : type) (from : val) : res val :=
  unmarshall tto (Concrete from).

(** A wrapper declares a result variable of type [tto], zero at first,
    runs [Var] on it and returns the pair of the variable and the
    error. *)
Definition wrapper (tto : type) (from : val) : res (val * option error) :=
  match Var tto from with
  | Ok v => Ok (v, None)
  | Err e => Ok (Zero tto, Some e)
  | Panic p => Panic p
  end.

Definition Int : val -> res (val * option error) := wrapper (TInt I).
Definition Int64 : val -> res (val * option error) := wrapper (TInt I64).
Definition Uint : val -> res (val * option error) := wrapper (TUint I).
(** Declared as [func Uint64(from interface{}) (u int64, e error)]. *)
Definition Uint64 : val -> res (val * option error) := wrapper (TInt I64).
Definition Float32 : val -> res (val * option error) := wrapper (TFloat32).
Definition Float64 : val -> res (val * option error) := wrapper (TFloat64).
(** [String] drops the error of [Var]. *)
Definition String_ (from : val) : res val :=
  r ← wrapper TString from; Ok (fst r).

(** ** findVal *)

(** The [for ... range formats] loop: the value found, [ok], and the
    keys tried so far. *)
Fixpoint findVal_loop (name : string) (from : gmap string val)
    (formats : list string) (tried : string) : val * bool * string :=
  match formats with
  | [] => (Nil, false, tried)
  | pat :: rest =>
      let key := Sprintf pat name in
      match from !! key with
      | Some result => (result, true, tried)
      | None => findVal_loop name from rest (tried +:+ key +:+ "|")
      end
  end.

Definition findVal (name : string) (from : gmap string val)
    (formats : list string) : res val :=
  let formats := if (length formats =? 0)%nat then ["%s"] else formats in
  let '(result, ok, tried) := findVal_loop name from formats "" in
  if ok then Ok result
  else if (len tried <? 2)%nat then
    Panic "runtime error: slice bounds out of range [:-1]"
  else
    Err (errorString ("Coerce: [" +:+ drop_last 2 tried +:+ "] not found in map")).

(** ** Struct *)

(** [reflect.StructField]: [PkgPath] is empty for an exported field. *)
Record StructField := {
  Name : string;
  PkgPath : string;
  Typ : type;
}.

(** [vf.CanSet()] for a field of the struct behind the pointer [to]. *)
Definition CanSet (f : StructField) : bool := String.eqb (PkgPath f) "".

(** Lines 81-91: [Some true] when the field can be written, directly or
    through the unsafe pointer; [Some false] when it cannot; [None] stands
    for the panic of [f.Name[0]] on an empty name. *)
Definition settable (f : StructField) : option bool :=
  if CanSet f then Some true
  else
    match String.get 0 (Name f) with
    | None => None
    | Some c => Some (is_own_lower c)
    end.

(** [reflect.TypeOf(vv).AssignableTo(f.Type)], where [vv] is a
    [reflect.Value]: the type asked is [reflect.Value] itself, a struct
    type, which among the types above is assignable to the empty
    interface only. *)
Definition Value_AssignableTo (ft : type) : bool := bool_decide (ft = TInterface).

(** What one field does to the binder's state: the field's value after
    it, the messages appended to [errstr] (each is followed by a newline
    there), and the panic that ended the call, if any. *)
Record step := {
  value : val;
  msgs : list string;
  panicked : option string;
}.

Definition wrote (v : val) : step := {| value := v; msgs := []; panicked := None |}.
Definition failed (v : val) (msg : string) : step :=
  {| value := v; msgs := [msg]; panicked := None |}.
Definition crashed (v : val) (p : string) : step :=
  {| value := v; msgs := []; panicked := Some p |}.

(** [err := unmarshall(vf, x); if err != nil { errstr += ... }] on the
    slot holding [cur]. *)
Definition unmarshall_into (cur : val) (tto : type) (x : Value) : step :=
  match unmarshall tto x with
  | Ok v => wrote v
  | Err e => failed cur (Error e)
  | Panic p => crashed cur p
  end.

(** The loop [for j := 0; j < vv.Len(); j++] over the indices [js] still
    to do, on the destination elements [dst]. *)
Fixpoint slice_loop (te ts : type) (src : list val) (js : list nat)
    (dst : list val) (errs : list string) : list val * list string * option string :=
  match js with
  | [] => (dst, errs, None)
  | j :: js' =>
      match src !! j with
      | None => (dst, errs, Some "reflect: slice index out of range")
      | Some x =>
          match unmarshall te (Index ts x) with
          | Ok v => slice_loop te ts src js' (<[j := v]> dst) errs
          | Err e => slice_loop te ts src js' dst (errs ++ [Error e])
          | Panic p => (dst, errs, Some p)
          end
      end
  end.

(** The body of the loop over the fields, for the field [f] holding
    [cur]. *)
Definition bind_field (f : StructField) (cur : val)
    (from : gmap string val) (formats : list string) : step :=
  match settable f with
  | None => crashed cur "runtime error: index out of range [0] with length 0"
  | Some false => failed cur ("Coerce: !CanSet() field " +:+ Name f)
  | Some true =>
      match findVal (Name f) from formats with
      | Panic p => crashed cur p
      | Err err => failed cur (Error err)
      | Ok Nil => wrote (Zero (Typ f))
      | Ok v =>
          if Value_AssignableTo (Typ f) then wrote v
          else
            match v with
            | VSlice ts l =>
                match Typ f with
                | TSlice te =>
                    let n := length l in
                    let '(dst, errs, p) :=
                      slice_loop te ts l (seq 0 n) (replicate n (Zero te)) [] in
                    {| value := VSlice te dst; msgs := errs; panicked := p |}
                | _ =>
                    if (length l =? 1)%nat then
                      match l !! 0%nat with
                      | Some x => unmarshall_into cur (Typ f) (Index ts x)
                      | None => crashed cur "reflect: slice index out of range"
                      end
                    else
                      failed cur ("Coerce: can't coerce " +:+ Name f
                                  +:+ " from multi-value slice")
                end
            | _ => unmarshall_into cur (Typ f) (Concrete v)
            end
      end
  end.

(** [errstr += msg + "\n"] for each message of a step. *)
Definition append_msgs (errstr : string) (ms : list string) : string :=
  fold_left (fun acc msg => acc +:+ msg +:+ nl) ms errstr.

(** The loop over the fields in declaration order; the struct is
    mutated in place, so what was written before a panic stays. *)
Fixpoint fields_loop (fs : list (StructField * val)) (from : gmap string val)
    (formats : list string) (errstr : string)
    : list (StructField * val) * (string + string) :=
  match fs with
  | [] => ([], inl errstr)
  | (f, cur) :: rest =>
      let st := bind_field f cur from formats in
      match panicked st with
      | Some p => ((f, value st) :: rest, inr p)
      | None =>
          let '(rest', r) := fields_loop rest from formats (append_msgs errstr (msgs st)) in
          ((f, value st) :: rest', r)
      end
  end.

(** The argument [to]: a non-nil pointer to a struct, given by its
    fields and their values, or anything else, given by the Kind of
    [reflect.ValueOf(to)]. *)
Inductive target :=
| PtrToStruct (fields : list (StructField * val))
| NotPtrToStruct (k : Kind).

(** [Struct(to, from, formats...)]: the target after the call and the
    error returned ([Ok tt] for nil). *)
Definition Struct (to : target) (from : gmap string val) (formats : list string)
    : target * res unit :=
  match to with
  | NotPtrToStruct k =>
      (to, Err (errorString ("Cast: expected *struct for 'to', got " +:+ Kind_String k)))
  | PtrToStruct fs =>
      let '(fs', r) := fields_loop fs from formats "" in
      (PtrToStruct fs',
       match r with
       | inr p => Panic p
       | inl errstr =>
           if negb (String.eqb errstr "") then
             Err (errorString (drop_last 1 errstr))
           else Ok tt
       end)
  end.

End Engine.

(** ** An implementation of the library operations, to run examples

    [golib] implements [GoLib] on the inputs the examples need:
    - [Sprintf]: literal text, [%s], [%v] and [%%], with Go's
      [%!(NOVERB)], [%!verb(MISSING)] and [%!(EXTRA string=...)] marks;
      flags, widths, precisions and the verbs [q], [x], [X] are not
      implemented (such a verb is rendered as a bad verb);
    - [Quote]: exact on ASCII text (bytes from 0x80 on are copied);
    - [ParseFloat]: decimal literals with optional fraction and exponent,
      and the names of infinity and NaN, rounded to nearest even;
      hexadecimal literals are not implemented (a syntax error);
    - [ParseDuration]: the literal [0] and sequences of whole numbers with
      a unit among ns, us, ms, s, m, h; fractions and the micro sign are
      not implemented (an error);
    - [FormatFloat]: exact on zeros, infinities, NaN and whole numbers
      of magnitude below 1e6; other values are not implemented (a
      question mark);
    - [Duration_String]: exact on whole seconds (a fraction of a second
      is dropped);
    - the conversions left to the implementation give
      [0x8000000000000000], as amd64 does for [int64(f)]. *)
Module example.

Import strconv.

(** [fmt.Sprintf(pat, name)]; [used] tells that the operand is consumed. *)
Fixpoint Sprintf (pat name : string) (used : bool) : string :=
  match pat with
  | EmptyString => if used then "" else "%!(EXTRA string=" +:+ name +:+ ")"
  | String c rest =>
      if Ascii.eqb c "%" then
        match rest with
        | EmptyString => "%!(NOVERB)" +:+ Sprintf rest name used
        | String v rest' =>
            if Ascii.eqb v "%" then String "%" (Sprintf rest' name used)
            else if used then
              "%!" +:+ String v "(MISSING)" +:+ Sprintf rest' name true
            else if Ascii.eqb v "s" || Ascii.eqb v "v" then
              name +:+ Sprintf rest' name true
            else
              "%!" +:+ String v "(string=" +:+ name +:+ ")" +:+ Sprintf rest' name true
        end
      else String c (Sprintf rest name used)
  end.

Definition hex_digit (n : Z) : ascii :=
  if n <? 10 then of_byte (48 + n) else of_byte (87 + n).

Definition Quote_byte (c : ascii) : string :=
  let n := byte c in
  if n =? 34 then "\" +:+ dquote
  else if n =? 92 then "\\"
  else if n =? 7 then "\a" else if n =? 8 then "\b"
  else if n =? 12 then "\f" else if n =? 10 then "\n"
  else if n =? 13 then "\r" else if n =? 9 then "\t"
  else if n =? 11 then "\v"
  else if (n <? 32) || (n =? 127) then
    "\x" +:+ String (hex_digit (n / 16)) (String (hex_digit (n mod 16)) "")
  else String c "".

Fixpoint Quote_body (s : string) : string :=
  match s with
  | EmptyString => ""
  | String c s' => Quote_byte c +:+ Quote_body s'
  end.

Definition Quote (s : string) : string := dquote +:+ Quote_body s +:+ dquote.

(** Leading decimal digits: their value after [acc], their number, and
    the rest of the text. *)
Fixpoint read_digits (s : string) (acc : Z) (cnt : Z) : Z * Z * string :=
  match s with
  | String c s' =>
      if is_digit c then read_digits s' (acc * 10 + digit_val c) (cnt + 1)
      else (acc, cnt, s)
  | EmptyString => (acc, cnt, s)
  end.

Definition read_sign (s : string) : bool * string :=
  match s with
  | String c s' =>
      if Ascii.eqb c "-" then (true, s')
      else if Ascii.eqb c "+" then (false, s')
      else (false, s)
  | EmptyString => (false, s)
  end.

(** Sign, decimal mantissa and decimal exponent of a literal. *)
Definition read_decimal (s : string) : option (bool * Z * Z) :=
  let '(neg, s1) := read_sign s in
  let '(ip, n1, s2) := read_digits s1 0 0 in
  let '(mant, n2, s3) :=
    match s2 with
    | String c r => if Ascii.eqb c "." then read_digits r ip 0 else (ip, 0, s2)
    | EmptyString => (ip, 0, s2)
    end in
  if n1 + n2 =? 0 then None
  else
    match s3 with
    | EmptyString => Some (neg, mant, - n2)
    | String c r =>
        if Ascii.eqb c "e" || Ascii.eqb c "E" then
          let '(eneg, r1) := read_sign r in
          let '(ex, n3, r2) := read_digits r1 0 0 in
          if (n3 =? 0) || negb (String.eqb r2 "") then None
          else Some (neg, mant, (if eneg then - ex else ex) - n2)
        else None
    end.

(** The float of precision [prec] nearest to [mant * 10^e10]. *)
Definition round_decimal (prec emax : Z) (neg : bool) (mant e10 : Z) : spec_float :=
  if mant =? 0 then S754_zero neg
  else if 0 <=? e10 then
    binary_normalize prec emax (cond_Zopp neg (mant * 10 ^ e10)) 0 false
  else
    SFdiv prec emax (S754_finite neg (Z.to_pos mant) 0)
                    (S754_finite false (Z.to_pos (10 ^ (- e10))) 0).

Fixpoint lower_ascii (s : string) : string :=
  match s with
  | EmptyString => ""
  | String c s' =>
      String (if in_range "A" "Z" c then of_byte (byte c + 32) else c) (lower_ascii s')
  end.

Definition ParseFloat (s : string) (bitSize : Z) : spec_float + error :=
  let '(neg, body) := read_sign s in
  let name := lower_ascii body in
  if String.eqb name "inf" || String.eqb name "infinity" then inl (S754_infinity neg)
  else if String.eqb (lower_ascii s) "nan" then inl S754_nan
  else
    match read_decimal s with
    | None => inr (NumError "ParseFloat" s ErrSyntax)
    | Some (neg, mant, e10) =>
        let f := if bitSize =? 32 then round_decimal 24 128 neg mant e10
                 else round_decimal 53 1024 neg mant e10 in
        match f with
        | S754_infinity _ => inr (NumError "ParseFloat" s ErrRange)
        | _ => inl f
        end
    end.

Definition unit_ns (u : string) : option Z :=
  if String.eqb u "ns" then Some 1
  else if String.eqb u "us" then Some 1000
  else if String.eqb u "ms" then Some 1000000
  else if String.eqb u "s" then Some 1000000000
  else if String.eqb u "m" then Some 60000000000
  else if String.eqb u "h" then Some 3600000000000
  else None.

(** The leading run of bytes that are neither a digit nor a dot. *)
Fixpoint read_unit (s : string) : string * string :=
  match s with
  | String c s' =>
      if is_digit c || Ascii.eqb c "." then ("", s)
      else let '(u, r) := read_unit s' in (String c u, r)
  | EmptyString => ("", s)
  end.

(** The components of a duration after the sign; the error is the text
    before the quoted input. *)
Fixpoint duration_parts (fuel : nat) (s : string) (d : Z) : Z + string :=
  match fuel with
  | O => inr "time: invalid duration "
  | S fuel' =>
      match s with
      | EmptyString => inl d
      | _ =>
          let '(v, n, s1) := read_digits s 0 0 in
          let '(u, s2) := read_unit s1 in
          if n =? 0 then inr "time: invalid duration "
          else if String.eqb u "" then
            match s1 with
            | EmptyString => inr "time: missing unit in duration "
            | _ => inr "time: invalid duration "
            end
          else
            match unit_ns u with
            | Some ns =>
                if 2 ^ 63 <? d + v * ns then inr "time: invalid duration "
                else duration_parts fuel' s2 (d + v * ns)
            | None => inr ("time: unknown unit " +:+ Quote u +:+ " in duration ")
            end
      end
  end.

Definition ParseDuration (orig : string) : Z + error :=
  let invalid := inr (errorString ("time: invalid duration " +:+ Quote orig)) in
  let '(neg, s) := read_sign orig in
  if String.eqb s "0" then inl 0
  else if String.eqb s "" then invalid
  else
    match duration_parts (S (String.length s)) s 0 with
    | inl d =>
        if neg then inl (- d)
        else if 2 ^ 63 - 1 <? d then invalid else inl d
    | inr msg => inr (errorString (msg +:+ Quote orig))
    end.

Definition FormatFloat (f : spec_float) (bitSize : Z) : string :=
  match f with
  | S754_zero s => if s then "-0" else "0"
  | S754_infinity s => if s then "-Inf" else "+Inf"
  | S754_nan => "NaN"
  | S754_finite _ _ _ =>
      match trunc f with
      | Some z =>
          if SFeqb f (float64_of_int z) && (Z.abs z <? 1000000) then strconv.FormatInt z
          else "?"
      | None => "?"
      end
  end.

Definition Duration_String (d : Z) : string :=
  let a := Z.abs d / 1000000000 in
  let body :=
    if a =? 0 then "0s"
    else if a <? 60 then FormatInt a +:+ "s"
    else if a <? 3600 then FormatInt (a / 60) +:+ "m" +:+ FormatInt (a mod 60) +:+ "s"
    else FormatInt (a / 3600) +:+ "h" +:+ FormatInt (a / 60 mod 60) +:+ "m"
         +:+ FormatInt (a mod 60) +:+ "s" in
  if d <? 0 then "-" +:+ body else body.

End example.

Definition golib : GoLib := {|
  Sprintf pat name := example.Sprintf pat name false;
  Quote := example.Quote;
  ParseFloat := example.ParseFloat;
  ParseDuration := example.ParseDuration;
  FormatFloat := example.FormatFloat;
  Duration_String := example.Duration_String;
  float_overflow_int64 _ := - 2 ^ 63;
  float_overflow_uint64 _ := 2 ^ 63;
|}.

(** ** Vocabulary of the statements *)

(** [strings.Contains(s, sub)]. *)
Fixpoint Contains (s sub : string) : bool :=
  String.prefix sub s
  || match s with
     | EmptyString => false
     | String _ s' => Contains s' sub
     end.

Section Vocabulary.
Context `{GoLib}.

(** What the element loop leaves in slot [x]'s place. *)
Definition elem_result (te ts : type) (x : val) : val :=
  match unmarshall te (Index ts x) with
  | Ok v => v
  | _ => Zero te
  end.

(** The element loop by recursion on the elements still to do. *)
Fixpoint elems_spec (te ts : type) (todo : list val)
    : list val * list string * option string :=
  match todo with
  | [] => ([], [], None)
  | x :: rest =>
      match unmarshall te (Index ts x) with
      | Ok v => let '(d, e, p) := elems_spec te ts rest in (v :: d, e, p)
      | Err e0 =>
          let '(d, e, p) := elems_spec te ts rest in (Zero te :: d, Error e0 :: e, p)
      | Panic p => (replicate (length todo) (Zero te), [], Some p)
      end
  end.

(** The keys tried for a field, each followed by a bar. *)
Definition tried_keys (name : string) (formats : list string) : string :=
  fold_left (fun tried pat => tried +:+ Sprintf pat name +:+ "|") formats "".

(** The messages of all fields of a call, in order. *)
Definition all_msgs (fs : list (StructField * val)) (from : gmap string val)
    (formats : list string) : list string :=
  flat_map (fun fc => msgs (bind_field (fst fc) (snd fc) from formats)) fs.

End Vocabulary.

(** The struct of the package documentation,
    [type x struct { intslice []int; boolval bool; s string }], and the
    fields of the scenarios. *)
Definition intslice : StructField :=
  {| Name := "intslice"; PkgPath := "main"; Typ := TSlice (TInt I) |}.
Definition boolval : StructField :=
  {| Name := "boolval"; PkgPath := "main"; Typ := TBool |}.
Definition s_field : StructField :=
  {| Name := "s"; PkgPath := "main"; Typ := TString |}.
Definition Name_field : StructField :=
  {| Name := "Name"; PkgPath := ""; Typ := TString |}.
Definition Count_field : StructField :=
  {| Name := "Count"; PkgPath := ""; Typ := TInt I |}.
Definition Flag_field : StructField :=
  {| Name := "Flag"; PkgPath := ""; Typ := TBool |}.
Definition X_field : StructField :=
  {| Name := "X"; PkgPath := ""; Typ := TString |}.

Definition strings (l : list string) : val := VSlice TString (map VString l).

(** The patterns [findVal] tries: the caller's, or the one pattern
    ["%s"] when there is none. *)
Definition patterns_tried (formats : list string) : list string :=
  match formats with
  | [] => ["%s"]
  | _ => formats
  end.

(** An integer value lies within the range of its own type. *)
Definition in_width (v : val) : Prop :=
  match v with
  | VInt w n => - 2 ^ (size_bits w - 1) <= n < 2 ^ (size_bits w - 1)
  | VUint w n => 0 <= n < 2 ^ size_bits w
  | _ => True
  end.

(** The fields of a target. *)
Definition target_fields (to : target) : list (StructField * val) :=
  match to with
  | PtrToStruct fs => fs
  | NotPtrToStruct _ => []
  end.

(** A field as it would be if it were exported. *)
Definition exported (f : StructField) : StructField :=
  {| Name := Name f; PkgPath := ""; Typ := Typ f |}.

(** Further fields for the examples: an empty interface, two slices and a
    field whose name starts with the two bytes of a Latin letter with an
    acute accent. *)
Definition Any_field : StructField :=
  {| Name := "Any"; PkgPath := ""; Typ := TInterface |}.
Definition Items_field : StructField :=
  {| Name := "Items"; PkgPath := ""; Typ := TSlice (TInt I) |}.
Definition Tags_field : StructField :=
  {| Name := "Tags"; PkgPath := ""; Typ := TSlice TString |}.
Definition accent_field : StructField :=
  {| Name := String (ascii_of_nat 195) (String (ascii_of_nat 169) "tat");
     PkgPath := "main"; Typ := TString |}.

(** * Properties *)

(** ** Text *)

Lemma app_cons (c : ascii) (s1 s2 : string) : String c s1 +:+ s2 = String c (s1 +:+ s2).
Proof. reflexivity. Qed.

Lemma app_nil_s (s : string) : "" +:+ s = s.
Proof. reflexivity. Qed.

Lemma len_app (s1 s2 : string) : len (s1 +:+ s2) = (len s1 + len s2)%nat.
Proof.
  induction s1 as [|c s1 IH]; [done |].
  rewrite app_cons. unfold len in *. simpl. by rewrite IH.
Qed.

Lemma substring_app_l (s1 s2 : string) : substring 0 (len s1) (s1 +:+ s2) = s1.
Proof.
  induction s1 as [|c s1 IH].
  - rewrite app_nil_s. by destruct s2.
  - rewrite app_cons. unfold len in *. simpl. by rewrite IH.
Qed.

Lemma drop_last_app (s1 s2 : string) : drop_last (len s2) (s1 +:+ s2) = s1.
Proof.
  unfold drop_last. rewrite len_app.
  replace (len s1 + len s2 - len s2)%nat with (len s1) by lia.
  apply substring_app_l.
Qed.

Lemma app_assoc_s (s1 s2 s3 : string) : (s1 +:+ s2) +:+ s3 = s1 +:+ (s2 +:+ s3).
Proof. induction s1 as [|c s1 IH]; [done | by rewrite !app_cons, IH]. Qed.

Lemma app_empty_r (s : string) : s +:+ "" = s.
Proof. induction s as [|c s IH]; [done | by rewrite app_cons, IH]. Qed.

Lemma prefix_app (s1 s2 : string) : String.prefix s1 (s1 +:+ s2) = true.
Proof.
  induction s1 as [|c s1 IH]; [by destruct s2 |].
  rewrite app_cons. simpl. destruct (ascii_dec c c); [done | congruence].
Qed.

Lemma Contains_prefix (s sub : string) : String.prefix sub s = true -> Contains s sub = true.
Proof.
  intros Hp. destruct s as [|c s].
  - change (Contains "" sub) with (String.prefix sub "" || false). by rewrite Hp.
  - change (Contains (String c s) sub)
      with (String.prefix sub (String c s) || Contains s sub). by rewrite Hp.
Qed.

Lemma Contains_app (pre s post : string) : Contains (pre +:+ s +:+ post) s = true.
Proof.
  induction pre as [|c pre IH].
  - rewrite app_nil_s. apply Contains_prefix, prefix_app.
  - rewrite app_cons. simpl. rewrite IH. apply orb_true_r.
Qed.

#[global] Arguments unmarshall : simpl never.
#[global] Arguments findVal : simpl never.
#[global] Arguments Error : simpl never.

Section Properties.
Context `{GoLib}.

(** ** The element loop of a slice *)

Lemma slice_loop_elems_spec te ts todo :
  forall n done dd errs,
    length done = n -> length dd = n ->
    slice_loop te ts (done ++ todo) (seq n (length todo))
               (dd ++ replicate (length todo) (Zero te)) errs
    = let '(d, e, p) := elems_spec te ts todo in (dd ++ d, errs ++ e, p).
Proof.
  induction todo as [|x rest IH]; intros n done dd errs Hn Hd; simpl.
  - by rewrite !app_nil_r.
  - rewrite list_lookup_middle by done.
    destruct (unmarshall te (Index ts x)) as [v|e0|p] eqn:Hx.
    + rewrite insert_app_r_alt by lia.
      replace (n - length dd)%nat with 0%nat by lia. simpl.
      specialize (IH (S n) (done ++ [x]) (dd ++ [v]) errs).
      rewrite <- !app_assoc in IH. simpl in IH.
      rewrite IH by (rewrite length_app; simpl; lia).
      destruct (elems_spec te ts rest) as [[d e] p]. by rewrite <- app_assoc.
    + specialize (IH (S n) (done ++ [x]) (dd ++ [Zero te]) (errs ++ [Error e0])).
      rewrite <- !app_assoc in IH. simpl in IH.
      rewrite IH by (rewrite length_app; simpl; lia).
      destruct (elems_spec te ts rest) as [[d e] p].
      by rewrite <- !app_assoc.
    + by rewrite app_nil_r.
Qed.

Lemma slice_loop_spec te ts l :
  slice_loop te ts l (seq 0 (length l)) (replicate (length l) (Zero te)) []
  = elems_spec te ts l.
Proof.
  pose proof (slice_loop_elems_spec te ts l 0%nat [] [] [] eq_refl eq_refl) as Hs.
  simpl in Hs. rewrite Hs. by destruct (elems_spec te ts l) as [[d e] p].
Qed.

Lemma elems_spec_length te ts todo d e p :
  elems_spec te ts todo = (d, e, p) -> length d = length todo.
Proof.
  revert d e p. induction todo as [|x rest IH]; intros d e p; simpl.
  - by intros [= <- <- <-].
  - destruct (unmarshall te (Index ts x));
      [destruct (elems_spec te ts rest) as [[d' e'] p'] eqn:E
      |destruct (elems_spec te ts rest) as [[d' e'] p'] eqn:E|];
      intros [= <- <- <-]; simpl.
    + f_equal. eauto.
    + f_equal. eauto.
    + by rewrite length_replicate.
Qed.

Lemma elems_spec_failed te ts todo d e p :
  elems_spec te ts todo = (d, e, p) ->
  forall i x, todo !! i = Some x ->
    is_Ok (unmarshall te (Index ts x)) = false -> d !! i = Some (Zero te).
Proof.
  revert d e p. induction todo as [|x rest IH]; intros d e p; simpl.
  - intros _ i x Hi. by rewrite lookup_nil in Hi.
  - destruct (unmarshall te (Index ts x)) as [v|e0|p0] eqn:Hx;
      [destruct (elems_spec te ts rest) as [[d' e'] p'] eqn:E
      |destruct (elems_spec te ts rest) as [[d' e'] p'] eqn:E|];
      intros [= <- <- <-] i y Hi Hy.
    + destruct i as [|i]; simpl in *.
      * injection Hi as ->. by rewrite Hx in Hy.
      * eauto.
    + destruct i as [|i]; simpl in *; [done | eauto].
    + apply lookup_lt_Some in Hi as Hlt. simpl in Hlt.
      change (Zero te :: replicate (length rest) (Zero te))
        with (replicate (S (length rest)) (Zero te)).
      by apply lookup_replicate_2.
Qed.

(** An element the loop reaches gets the result of its coercion. *)
Lemma elems_spec_reached te ts todo d e p :
  elems_spec te ts todo = (d, e, p) ->
  forall i x, todo !! i = Some x ->
    Forall (fun y => is_Panic (unmarshall te (Index ts y)) = false) (take (S i) todo) ->
    d !! i = Some (elem_result te ts x).
Proof.
  revert d e p. induction todo as [|x0 rest IH]; intros d e p Hs i x Hi Hnp.
  - by rewrite lookup_nil in Hi.
  - simpl in Hs. rewrite firstn_cons in Hnp. apply Forall_cons in Hnp as [Hx0 Hnp].
    destruct (unmarshall te (Index ts x0)) as [v|e0|p0] eqn:Hx; [| |done];
      destruct (elems_spec te ts rest) as [[d' e'] p'] eqn:E;
      injection Hs as <- <- <-;
      (destruct i as [|i]; simpl in *;
       [injection Hi as <-; unfold elem_result; by rewrite Hx | eauto]).
Qed.

(** The loop panics exactly when the coercion of some element does. *)
Lemma elems_spec_panicked te ts todo d e p :
  elems_spec te ts todo = (d, e, p) ->
  p = None <-> Forall (fun y => is_Panic (unmarshall te (Index ts y)) = false) todo.
Proof.
  revert d e p. induction todo as [|x0 rest IH]; intros d e p Hs; simpl in Hs.
  - injection Hs as <- <- <-. split; [constructor | done].
  - rewrite Forall_cons.
    destruct (unmarshall te (Index ts x0)) as [v|e0|p0] eqn:Hx;
      [destruct (elems_spec te ts rest) as [[d' e'] p'] eqn:E
      |destruct (elems_spec te ts rest) as [[d' e'] p'] eqn:E|];
      injection Hs as <- <- <-.
    + rewrite (IH _ _ _ eq_refl). simpl. tauto.
    + rewrite (IH _ _ _ eq_refl). simpl. tauto.
    + simpl. split; [done | by intros [? _]].
Qed.

Lemma elems_spec_all_fail te ts todo d e p :
  elems_spec te ts todo = (d, e, p) ->
  Forall (fun x => is_Ok (unmarshall te (Index ts x)) = false) todo ->
  d = replicate (length todo) (Zero te).
Proof.
  intros Hs Hall. apply list_eq_same_length with (length todo).
  - by rewrite length_replicate.
  - eapply elems_spec_length; eauto.
  - intros i x y Hi Hx Hy.
    apply lookup_replicate in Hy as [-> _].
    destruct (lookup_lt_is_Some_2 todo i Hi) as [z Hz].
    rewrite Forall_forall in Hall.
    assert (is_Ok (unmarshall te (Index ts z)) = false) as Hf
      by (apply Hall; eapply list_elem_of_lookup_2; eauto).
    pose proof (elems_spec_failed _ _ _ _ _ _ Hs i z Hz Hf). congruence.
Qed.

(** A field that is written to, given a slice for a slice-typed field. *)
Lemma bind_field_slice_to_slice f cur from formats ts l te :
  settable f = Some true ->
  findVal (Name f) from formats = Ok (VSlice ts l) ->
  Typ f = TSlice te ->
  bind_field f cur from formats
  = let '(dst, errs, p) := elems_spec te ts l in
    {| value := VSlice te dst; msgs := errs; panicked := p |}.
Proof.
  intros Hs Hf Ht. unfold bind_field. rewrite Hs, Hf, Ht. simpl.
  by rewrite slice_loop_spec.
Qed.

(** ** findVal *)

Lemma findVal_loop_hit name from pre pat post v tried :
  Forall (fun p => from !! Sprintf p name = None) pre ->
  from !! Sprintf pat name = Some v ->
  exists tried', findVal_loop name from (pre ++ pat :: post) tried = (v, true, tried').
Proof.
  intros Hpre Hpat. revert tried.
  induction Hpre as [|p pre Hp _ IH]; intros tried; simpl.
  - rewrite Hpat. by eexists.
  - rewrite Hp. apply IH.
Qed.

Lemma findVal_loop_miss name from formats tried :
  Forall (fun p => from !! Sprintf p name = None) formats ->
  findVal_loop name from formats tried
  = (Nil, false, fold_left (fun tried pat => tried +:+ Sprintf pat name +:+ "|") formats tried).
Proof.
  intros Hall. revert tried.
  induction Hall as [|p formats Hp _ IH]; intros tried; simpl; [done |].
  rewrite Hp. apply IH.
Qed.

Lemma findVal_first_hit name from pre pat post v :
  Forall (fun p => from !! Sprintf p name = None) pre ->
  from !! Sprintf pat name = Some v ->
  findVal name from (pre ++ pat :: post) = Ok v.
Proof.
  intros Hpre Hpat. unfold findVal.
  assert ((length (pre ++ pat :: post) =? 0)%nat = false) as ->
    by (rewrite length_app; simpl; apply Nat.eqb_neq; lia).
  destruct (findVal_loop_hit name from pre pat post v "" Hpre Hpat) as [tried' ->].
  done.
Qed.

(** When no key is in the map, the text between the brackets is the
    bar-separated list of the keys tried, without its last two bytes. *)
Lemma findVal_not_found name from formats :
  formats <> [] ->
  Forall (fun p => from !! Sprintf p name = None) formats ->
  findVal name from formats
  = if (len (tried_keys name formats) <? 2)%nat then
      Panic "runtime error: slice bounds out of range [:-1]"
    else
      Err (errorString ("Coerce: [" +:+ drop_last 2 (tried_keys name formats)
                        +:+ "] not found in map")).
Proof.
  intros Hne Hall. unfold findVal.
  destruct formats as [|p formats]; [done |].
  change (length (p :: formats) =? 0)%nat with false. cbv iota.
  by rewrite findVal_loop_miss.
Qed.

(** ** The accumulated error text *)

Lemma append_msgs_app errstr ms1 ms2 :
  append_msgs errstr (ms1 ++ ms2) = append_msgs (append_msgs errstr ms1) ms2.
Proof. apply fold_left_app. Qed.

Lemma append_msgs_lines ms : forall errstr,
  append_msgs errstr ms
  = errstr +:+ match ms with [] => "" | _ => String.concat nl ms +:+ nl end.
Proof.
  induction ms as [|m ms IH]; intros errstr.
  - by rewrite app_empty_r.
  - change (append_msgs errstr (m :: ms)) with (append_msgs (errstr +:+ m +:+ nl) ms).
    rewrite IH. destruct ms as [|m' ms].
    + by rewrite app_empty_r.
    + change (String.concat nl (m :: m' :: ms))
        with (m +:+ nl +:+ String.concat nl (m' :: ms)).
      by rewrite !app_assoc_s.
Qed.

Lemma concat_member sep ms m :
  m ∈ ms -> exists pre post, String.concat sep ms = pre +:+ m +:+ post.
Proof.
  induction 1 as [m ms|m m' ms Hin [pre [post IH]]].
  - destruct ms as [|m' ms].
    + exists "", "". by rewrite app_nil_s, app_empty_r.
    + by exists "", (sep +:+ String.concat sep (m' :: ms)).
  - destruct ms as [|m'' ms]; [by apply elem_of_nil in Hin |].
    change (String.concat sep (m' :: m'' :: ms))
      with (m' +:+ sep +:+ String.concat sep (m'' :: ms)).
    rewrite IH. exists (m' +:+ sep +:+ pre), post. by rewrite !app_assoc_s.
Qed.

Lemma fields_loop_no_panic from formats fs : forall errstr,
  Forall (fun fc => panicked (bind_field (fst fc) (snd fc) from formats) = None) fs ->
  fields_loop fs from formats errstr
  = (map (fun fc => (fst fc, value (bind_field (fst fc) (snd fc) from formats))) fs,
     inl (append_msgs errstr (all_msgs fs from formats))).
Proof.
  induction fs as [|[f cur] fs IH]; intros errstr Hall; [done |].
  apply Forall_cons in Hall as [Hf Hall]. simpl in Hf.
  simpl. rewrite Hf, IH by done.
  unfold all_msgs. simpl. by rewrite append_msgs_app.
Qed.

Lemma Struct_no_panic fs from formats :
  Forall (fun fc => panicked (bind_field (fst fc) (snd fc) from formats) = None) fs ->
  Struct (PtrToStruct fs) from formats
  = (PtrToStruct (map (fun fc => (fst fc, value (bind_field (fst fc) (snd fc) from formats))) fs),
     match all_msgs fs from formats with
     | [] => Ok tt
     | ms => Err (errorString (String.concat nl ms))
     end).
Proof.
  intros Hall. unfold Struct. rewrite fields_loop_no_panic by done.
  f_equal. rewrite append_msgs_lines, app_nil_s.
  destruct (all_msgs fs from formats) as [|m ms]; [done |].
  set (text := String.concat nl (m :: ms)).
  assert (String.eqb (text +:+ nl) "" = false) as ->.
  { apply String.eqb_neq. intros Heq.
    apply (f_equal len) in Heq. rewrite len_app in Heq. simpl in Heq. lia. }
  pose proof (drop_last_app text nl) as Hd.
  change (len nl) with 1%nat in Hd. simpl. by rewrite Hd.
Qed.

(** The call panics exactly when the step of some field does. *)
Lemma fields_loop_panics from formats fs : forall errstr,
  (exists p, snd (fields_loop fs from formats errstr) = inr p)
  <-> Exists (fun fc => panicked (bind_field (fst fc) (snd fc) from formats) <> None) fs.
Proof.
  induction fs as [|[f cur] fs IH]; intros errstr.
  - rewrite Exists_nil. simpl. split; [by intros [p Hp] | done].
  - rewrite Exists_cons. simpl.
    destruct (panicked (bind_field f cur from formats)) as [p|] eqn:Hp.
    + simpl. split; [by left | by eexists].
    + rewrite <- (IH (append_msgs errstr (msgs (bind_field f cur from formats)))).
      destruct (fields_loop fs from formats _) as [rest' r]. simpl.
      split; [by right | by intros [? | ?]].
Qed.

Lemma Struct_panics fs from formats :
  is_Panic (snd (Struct (PtrToStruct fs) from formats)) = true
  <-> Exists (fun fc => panicked (bind_field (fst fc) (snd fc) from formats) <> None) fs.
Proof.
  rewrite <- (fields_loop_panics from formats fs ""). unfold Struct.
  destruct (fields_loop fs from formats "") as [fs' [errstr | p]]; simpl.
  - split; [| by intros [p Hp]]. by destruct (negb _).
  - split; [by eexists | done].
Qed.

End Properties.

(** ** Decimal text of integers *)

Lemma digit_cases (d : Z) : 0 <= d < 10 ->
  d = 0 \/ d = 1 \/ d = 2 \/ d = 3 \/ d = 4 \/ d = 5 \/ d = 6 \/ d = 7 \/ d = 8 \/ d = 9.
Proof. lia. Qed.

Lemma is_digit_of_byte (d : Z) : 0 <= d < 10 ->
  strconv.is_digit (of_byte (48 + d)) = true /\ strconv.digit_val (of_byte (48 + d)) = d.
Proof.
  intros Hd. destruct (digit_cases d Hd) as [->|[->|[->|[->|[->|[->|[->|[->|[->| ->]]]]]]]]];
    by vm_compute.
Qed.

Lemma is_digit_not_sign (c : ascii) : strconv.is_digit c = true ->
  Ascii.eqb c "-" = false /\ Ascii.eqb c "+" = false.
Proof.
  destruct c as [[] [] [] [] [] [] [] []]; vm_compute; intros; (done || congruence).
Qed.

(** One step of the digit loop on a digit that fits. *)
Lemma ParseUint_loop_digit maxVal d rest acc :
  0 <= d < 10 -> 0 <= acc -> acc * 10 + d <= maxVal -> maxVal <= maxUint64 ->
  strconv.ParseUint_loop maxVal (String (of_byte (48 + d)) rest) acc
  = strconv.ParseUint_loop maxVal rest (acc * 10 + d).
Proof.
  intros Hd Hacc Hfit Hmax. simpl.
  destruct (is_digit_of_byte d Hd) as [-> ->].
  assert (acc * 10 + d < 2 ^ 64) by (unfold maxUint64 in Hmax; lia).
  assert ((strconv.cutoff <=? acc) = false) as ->.
  { apply Z.leb_gt. change strconv.cutoff with 1844674407370955162.
    change (2 ^ 64) with 18446744073709551616 in *. lia. }
  unfold uint64, to_uint. rewrite Z.mod_small by lia.
  assert ((acc * 10 + d <? acc * 10) = false) as -> by (apply Z.ltb_ge; lia).
  assert ((maxVal <? acc * 10 + d) = false) as -> by (apply Z.ltb_ge; lia).
  done.
Qed.

(** The digit loop reads the digits of [n] as [n]. *)
Lemma ParseUint_loop_digits maxVal fuel : forall n rest acc,
  0 <= n < 2 ^ Z.of_nat fuel -> 0 <= acc -> maxVal <= maxUint64 ->
  acc * 10 ^ Z.of_nat (len (strconv.digits fuel n)) + n <= maxVal ->
  strconv.ParseUint_loop maxVal (strconv.digits fuel n +:+ rest) acc
  = strconv.ParseUint_loop maxVal rest
      (acc * 10 ^ Z.of_nat (len (strconv.digits fuel n)) + n).
Proof.
  induction fuel as [|fuel IH]; intros n rest acc Hn Hacc Hmax Hfit.
  - change (2 ^ Z.of_nat 0) with 1 in Hn. assert (n = 0) as -> by lia.
    simpl. rewrite app_nil_s. f_equal. lia.
  - change (strconv.digits (S fuel) n)
      with (if n <? 10 then String (of_byte (48 + n)) ""
            else strconv.digits fuel (n / 10) +:+ String (of_byte (48 + n mod 10)) "") in *.
    destruct (n <? 10) eqn:Hlt.
    + apply Z.ltb_lt in Hlt. rewrite app_cons, app_nil_s.
      change (Z.of_nat (len (String (of_byte (48 + n)) ""))) with 1 in *.
      rewrite Z.pow_1_r in *. apply ParseUint_loop_digit; lia.
    + apply Z.ltb_ge in Hlt.
      rewrite len_app in *. change (len (String (of_byte (48 + n mod 10)) "")) with 1%nat in *.
      rewrite Nat2Z.inj_add, Z.pow_add_r in * by lia.
      change (Z.of_nat 1) with 1 in *. rewrite Z.pow_1_r in *.
      set (P := 10 ^ Z.of_nat (len (strconv.digits fuel (n / 10)))) in *.
      assert (0 < P) by (apply Z.pow_pos_nonneg; lia).
      pose proof (Z.div_mod n 10 ltac:(lia)) as Hdm.
      pose proof (Z.mod_pos_bound n 10 ltac:(lia)) as Hmod.
      assert (0 <= n / 10) by (apply Z.div_pos; lia).
      rewrite app_assoc_s, IH.
      * rewrite app_cons, app_nil_s.
        rewrite ParseUint_loop_digit by nia. f_equal. lia.
      * rewrite Nat2Z.inj_succ, Z.pow_succ_r in Hn by lia.
        split; [done |]. apply Z.div_lt_upper_bound; lia.
      * done.
      * done.
      * nia.
Qed.

Lemma digits_head fuel : forall n, 0 <= n ->
  exists c rest, strconv.digits (S fuel) n = String c rest /\ strconv.is_digit c = true.
Proof.
  induction fuel as [|fuel IH]; intros n Hn;
    change (strconv.digits (S ?f) n)
      with (if n <? 10 then String (of_byte (48 + n)) ""
            else strconv.digits f (n / 10) +:+ String (of_byte (48 + n mod 10)) "");
    destruct (n <? 10) eqn:Hlt.
  - apply Z.ltb_lt in Hlt. eexists _, _. split; [done |]. by apply is_digit_of_byte.
  - eexists _, _. split; [done |].
    apply is_digit_of_byte, Z.mod_pos_bound. lia.
  - apply Z.ltb_lt in Hlt. eexists _, _. split; [done |]. by apply is_digit_of_byte.
  - destruct (IH (n / 10)) as [c [rest [-> Hc]]]; [apply Z.div_pos; lia |].
    rewrite app_cons. by eexists _, _.
Qed.

Lemma FormatUint_fuel n : 0 <= n -> n < 2 ^ Z.of_nat (S (Z.to_nat (Z.log2 n))).
Proof.
  intros Hn. rewrite Nat2Z.inj_succ, Z2Nat.id by apply Z.log2_nonneg.
  destruct (Z.eq_dec n 0) as [-> | Hne]; [done |].
  apply Z.log2_spec. lia.
Qed.

(** [ParseUint] reads back what [FormatUint] writes. *)
Lemma ParseUint_core_FormatUint n bitSize :
  0 <= n -> n <= 2 ^ bitSize - 1 -> 2 ^ bitSize - 1 <= maxUint64 ->
  strconv.ParseUint_core (strconv.FormatUint n) bitSize = inl n.
Proof.
  intros Hn Hfit Hmax. unfold strconv.ParseUint_core, strconv.FormatUint.
  destruct (digits_head (Z.to_nat (Z.log2 n)) n Hn) as [c [rest [Hd _]]].
  assert (String.eqb (strconv.digits (S (Z.to_nat (Z.log2 n))) n) "" = false) as ->
    by (rewrite Hd; done).
  pose proof (ParseUint_loop_digits (2 ^ bitSize - 1) (S (Z.to_nat (Z.log2 n))) n "" 0) as Hl.
  rewrite app_empty_r in Hl.
  rewrite Hl by first [done | lia | split; [done | by apply FormatUint_fuel]].
  simpl; f_equal; lia.
Qed.

(** [ParseInt] reads back what [FormatInt] writes, for each int64. *)
Lemma ParseInt_FormatInt n :
  - 2 ^ 63 <= n < 2 ^ 63 -> strconv.ParseInt (strconv.FormatInt n) 64 = Ok n.
Proof.
  intros Hn. unfold strconv.FormatInt. destruct (n <? 0) eqn:Hneg.
  - apply Z.ltb_lt in Hneg.
    change ("-" +:+ strconv.FormatUint (- n)) with (String "-" (strconv.FormatUint (- n))).
    unfold strconv.ParseInt.
    change (Ascii.eqb "-" "-") with true. change (Ascii.eqb "-" "+") with false.
    cbv iota. simpl orb. cbv iota.
    rewrite ParseUint_core_FormatUint by (unfold maxUint64; lia).
    assert ((2 ^ (64 - 1) <? - n) = false) as -> by (apply Z.ltb_ge; lia).
    simpl negb. simpl andb. cbv iota. f_equal.
    unfold int64, to_int. change (2 ^ (64 - 1)) with (2 ^ 63).
    destruct (Z.eq_dec n (- 2 ^ 63)) as [-> | Hne]; [done |].
    rewrite (Z.mod_small (- n + 2 ^ 63)) by lia.
    replace (- (- n + 2 ^ 63 - 2 ^ 63) + 2 ^ 63) with (n + 2 ^ 63) by lia.
    rewrite Z.mod_small by lia. lia.
  - apply Z.ltb_ge in Hneg. unfold strconv.FormatUint.
    destruct (digits_head (Z.to_nat (Z.log2 n)) n Hneg) as [c [rest [Hd Hc]]].
    unfold strconv.ParseInt. rewrite Hd.
    destruct (is_digit_not_sign c Hc) as [-> ->]. simpl orb. cbv iota.
    rewrite <- Hd. fold (strconv.FormatUint n).
    rewrite ParseUint_core_FormatUint by (unfold maxUint64; lia).
    assert ((2 ^ (64 - 1) <=? n) = false) as -> by (apply Z.leb_gt; lia).
    simpl negb. simpl andb. cbv iota. f_equal.
    unfold int64, to_int. change (2 ^ (64 - 1)) with (2 ^ 63).
    rewrite Z.mod_small by lia. lia.
Qed.

(** A text that ends in a byte that is no digit is no integer literal. *)
Lemma ParseUint_loop_suffix maxVal u : strconv.is_digit u = false ->
  forall s n, exists e, strconv.ParseUint_loop maxVal (s +:+ String u "") n = inr e.
Proof.
  intros Hu. induction s as [|c s IH]; intros n.
  - rewrite app_nil_s. simpl. rewrite Hu. by eexists.
  - rewrite app_cons. simpl.
    destruct (strconv.is_digit c); [| by eexists].
    destruct (strconv.cutoff <=? n); [by eexists |].
    destruct (_ || _); [by eexists | apply IH].
Qed.

Lemma ParseUint_core_suffix bitSize u s : strconv.is_digit u = false ->
  (exists e, strconv.ParseUint_core (s +:+ String u "") bitSize = inr e)
  /\ (exists e, strconv.ParseUint_core
                  (match s +:+ String u "" with String _ r => r | EmptyString => "" end)
                  bitSize = inr e).
Proof.
  intros Hu. split.
  - unfold strconv.ParseUint_core. destruct (String.eqb _ _); [by eexists |].
    by apply ParseUint_loop_suffix.
  - destruct s as [|c s].
    + rewrite app_nil_s. by eexists.
    + rewrite app_cons. unfold strconv.ParseUint_core.
      destruct (String.eqb _ _); [by eexists |]. by apply ParseUint_loop_suffix.
Qed.

Lemma ParseInt_suffix bitSize u s : strconv.is_digit u = false -> 2 <= bitSize ->
  exists e, strconv.ParseInt (s +:+ String u "") bitSize = Err e.
Proof.
  intros Hu Hb.
  destruct (ParseUint_core_suffix bitSize u s Hu) as [[e1 H1] [e2 H2]].
  assert (2 ^ (bitSize - 1) < 2 ^ bitSize - 1).
  { replace bitSize with (Z.succ (bitSize - 1)) at 2 by lia.
    rewrite Z.pow_succ_r by lia.
    assert (2 ^ 1 <= 2 ^ (bitSize - 1)) by (apply Z.pow_le_mono_r; lia).
    change (2 ^ 1) with 2 in *. lia. }
  unfold strconv.ParseInt. destruct (s +:+ String u "") as [|c r] eqn:E; [by eexists |].
  destruct (Ascii.eqb c "+" || Ascii.eqb c "-").
  - rewrite H2. destruct e2; [by eexists |].
    assert ((2 ^ (bitSize - 1) <=? 2 ^ bitSize - 1) = true) as -> by (apply Z.leb_le; lia).
    assert ((2 ^ (bitSize - 1) <? 2 ^ bitSize - 1) = true) as -> by (apply Z.ltb_lt; lia).
    destruct (Ascii.eqb c "-"); by eexists.
  - rewrite H1. destruct e1; [by eexists |].
    assert ((2 ^ (bitSize - 1) <=? 2 ^ bitSize - 1) = true) as -> by (apply Z.leb_le; lia).
    assert ((2 ^ (bitSize - 1) <? 2 ^ bitSize - 1) = true) as -> by (apply Z.ltb_lt; lia).
    destruct (Ascii.eqb c "-"); by eexists.
Qed.

Lemma ParseUint_suffix bitSize u s : strconv.is_digit u = false ->
  exists e, strconv.ParseUint (s +:+ String u "") bitSize = Err e.
Proof.
  intros Hu. destruct (ParseUint_core_suffix bitSize u s Hu) as [[e1 H1] _].
  unfold strconv.ParseUint. rewrite H1. by eexists.
Qed.

Lemma last_byte_snoc s u : last_byte (s +:+ String u "") = Some u.
Proof.
  unfold last_byte. rewrite len_app. change (len (String u "")) with 1%nat.
  replace (len s + 1)%nat with (S (len s)) by lia. unfold len.
  induction s as [|c s IH]; [done |]. rewrite app_cons. exact IH.
Qed.

Lemma drop_last_snoc s u : drop_last 1 (s +:+ String u "") = s.
Proof. exact (drop_last_app s (String u "")). Qed.

(** ** Narrowing *)

Lemma to_int_int64 (w : isize) (x : Z) :
  to_int (size_bits w) (int64 x) = to_int (size_bits w) x.
Proof.
  unfold int64, to_int.
  destruct w; simpl size_bits; unfold IntSize;
    change (2 ^ (64 - 1)) with 9223372036854775808;
    change (2 ^ 64) with 18446744073709551616;
    change (2 ^ (8 - 1)) with 128; change (2 ^ 8) with 256;
    change (2 ^ (16 - 1)) with 32768; change (2 ^ 16) with 65536;
    change (2 ^ (32 - 1)) with 2147483648; change (2 ^ 32) with 4294967296;
    Z.div_mod_to_equations; lia.
Qed.

Lemma to_uint_uint64_int64 (w : isize) (x : Z) :
  to_uint (size_bits w) (uint64 (int64 x)) = to_uint (size_bits w) x.
Proof.
  unfold uint64, int64, to_int, to_uint.
  destruct w; simpl size_bits; unfold IntSize;
    change (2 ^ (64 - 1)) with 9223372036854775808;
    change (2 ^ 64) with 18446744073709551616;
    change (2 ^ 8) with 256; change (2 ^ 16) with 65536;
    change (2 ^ 32) with 4294967296;
    Z.div_mod_to_equations; lia.
Qed.

Lemma size_bits_pos (w : isize) : 8 <= size_bits w <= 64.
Proof. destruct w; simpl; unfold IntSize; lia. Qed.

Lemma to_int_small (bits x : Z) :
  0 < bits -> - 2 ^ (bits - 1) <= x < 2 ^ (bits - 1) -> to_int bits x = x.
Proof.
  intros Hb Hx. unfold to_int.
  assert (2 ^ bits = 2 * 2 ^ (bits - 1)) as Hp.
  { replace bits with (Z.succ (bits - 1)) at 1 by lia. apply Z.pow_succ_r. lia. }
  rewrite Z.mod_small by lia. lia.
Qed.

Lemma to_uint_small (bits x : Z) : 0 <= x < 2 ^ bits -> to_uint bits x = x.
Proof. intros Hx. unfold to_uint. by apply Z.mod_small. Qed.

Section UnitSuffix.
Context `{GoLib}.

(** The table of the multipliers. *)
Lemma mult_of_table :
  mult_of "B" = Some 1 /\ mult_of "b" = Some 1
  /\ mult_of "K" = Some (2 ^ 10) /\ mult_of "k" = Some (2 ^ 10)
  /\ mult_of "M" = Some (2 ^ 20) /\ mult_of "m" = Some (2 ^ 20)
  /\ mult_of "G" = Some (2 ^ 30) /\ mult_of "g" = Some (2 ^ 30)
  /\ mult_of "T" = Some (2 ^ 40) /\ mult_of "t" = Some (2 ^ 40).
Proof. repeat split; reflexivity. Qed.

Lemma mult_of_not_digit u mult : mult_of u = Some mult -> strconv.is_digit u = false.
Proof.
  destruct u as [[] [] [] [] [] [] [] []]; vm_compute; intros; (done || congruence).
Qed.

Lemma unmarshall_string_int w s :
  unmarshall (TInt w) (Concrete (VString s))
  = match strconv.ParseInt s (size_bits w) with
    | Ok ival => SetInt (TInt w) ival
    | Err err => ival ← getBytes s err; SetInt (TInt w) ival
    | Panic p => Panic p
    end.
Proof. by destruct w. Qed.

Lemma unmarshall_string_uint w s :
  unmarshall (TUint w) (Concrete (VString s))
  = match strconv.ParseUint s (size_bits w) with
    | Ok uval => SetUint (TUint w) uval
    | Err err => ival ← getBytes s err; SetUint (TUint w) (uint64 ival)
    | Panic p => Panic p
    end.
Proof. by destruct w. Qed.

Lemma getBytes_unit_suffix u mult n err :
  mult_of u = Some mult -> - 2 ^ 63 <= n < 2 ^ 63 ->
  getBytes (strconv.FormatInt n +:+ String u "") err = Ok (int64 (n * mult)).
Proof.
  intros Hu Hn. unfold getBytes.
  by rewrite last_byte_snoc, Hu, drop_last_snoc, ParseInt_FormatInt.
Qed.

(** The text of an int64 [n] followed by a unit letter, coerced into
    an integer slot that can hold [n] times the unit's factor, gives
    that product. *)
Theorem unit_suffix_in_range u mult n w :
  mult_of u = Some mult -> - 2 ^ 63 <= n < 2 ^ 63 ->
  (- 2 ^ (size_bits w - 1) <= n * mult < 2 ^ (size_bits w - 1) ->
   unmarshall (TInt w) (Concrete (VString (strconv.FormatInt n +:+ String u "")))
   = Ok (VInt w (n * mult)))
  /\ (0 <= n * mult < 2 ^ size_bits w ->
      unmarshall (TUint w) (Concrete (VString (strconv.FormatInt n +:+ String u "")))
      = Ok (VUint w (n * mult))).
Proof.
  intros Hu Hn. pose proof (size_bits_pos w) as Hw.
  pose proof (mult_of_not_digit u mult Hu) as Hd. split; intros Hfit.
  - rewrite unmarshall_string_int.
    destruct (ParseInt_suffix (size_bits w) u (strconv.FormatInt n) Hd) as [e ->]; [lia |].
    rewrite (getBytes_unit_suffix u mult n e Hu Hn). simpl. do 2 f_equal.
    rewrite to_int_int64. apply to_int_small; lia.
  - rewrite unmarshall_string_uint.
    destruct (ParseUint_suffix (size_bits w) u (strconv.FormatInt n) Hd) as [e ->].
    rewrite (getBytes_unit_suffix u mult n e Hu Hn). simpl. do 2 f_equal.
    rewrite to_uint_uint64_int64. by apply to_uint_small.
Qed.

End UnitSuffix.


(** ** Where a coercion panics *)

Lemma last_byte_None s : last_byte s = None <-> s = "".
Proof.
  split; [| by intros ->].
  destruct s as [|c s]; [done |]. intros Hl. exfalso. revert c Hl.
  unfold last_byte, len. simpl String.length.
  induction s as [|c' s IH]; intros c Hl; [done |].
  apply (IH c'). exact Hl.
Qed.

Lemma ParseInt_no_panic s bitSize : is_Panic (strconv.ParseInt s bitSize) = false.
Proof.
  unfold strconv.ParseInt. destruct s as [|c rest]; [done |].
  destruct (strconv.ParseUint_core _ _) as [n|[]]; try done;
    repeat match goal with |- context [if ?b then _ else _] => destruct b end; done.
Qed.

Lemma ParseUint_no_panic s bitSize : is_Panic (strconv.ParseUint s bitSize) = false.
Proof. unfold strconv.ParseUint. by destruct (strconv.ParseUint_core _ _). Qed.

Section Panics.
Context `{GoLib}.

Lemma getBytes_panics s err : is_Panic (getBytes s err) = true <-> s = "".
Proof.
  split; [| by intros ->].
  intros Hp. apply last_byte_None. unfold getBytes in Hp.
  destruct (last_byte s) as [c|]; [exfalso | done].
  destruct (mult_of c); [| done].
  destruct (strconv.ParseInt _ _); try done;
    by destruct (ParseFloat _ _).
Qed.

Lemma unmarshallString_panics tto s :
  is_Panic (unmarshallString tto s) = true
  <-> s = "" /\ exists w, tto = TInt w \/ tto = TUint w.
Proof.
  split.
  - intros Hp. unfold unmarshallString in Hp.
    destruct tto as [|w|w| | | | |e|]; simpl in Hp; try done;
      try (by destruct (ParseFloat _ _)); try (by destruct (ParseDuration _));
      try (by destruct w; simpl in Hp; destruct (ParseFloat _ _)).
    + split; [| by eauto]. destruct w; simpl in Hp;
        (destruct (strconv.ParseInt s _) as [i|err|p] eqn:Hi;
         [done
         |apply (getBytes_panics s err); by destruct (getBytes s err)
         |match type of Hi with
          | strconv.ParseInt _ ?b = _ => pose proof (ParseInt_no_panic s b) as Hn
          end; by rewrite Hi in Hn]).
    + split; [| by eauto]. destruct w; simpl in Hp;
        (destruct (strconv.ParseUint s _) as [i|err|p] eqn:Hi;
         [done
         |apply (getBytes_panics s err); by destruct (getBytes s err)
         |match type of Hi with
          | strconv.ParseUint _ ?b = _ => pose proof (ParseUint_no_panic s b) as Hn
          end; by rewrite Hi in Hn]).
  - intros [-> [w [-> | ->]]]; by destruct w.
Qed.

Lemma unmarshallFloat_no_panic tto f : is_Panic (unmarshallFloat tto f) = false.
Proof. destruct tto as [|w|w| | | | |e|]; try done; by destruct w. Qed.

(** [unmarshall] panics on the nil source and on the empty string
    coerced into an integer slot, and nowhere else. *)
Lemma unmarshall_panics tto vfrom :
  is_Panic (unmarshall tto vfrom) = true
  <-> vfrom = Concrete Nil
      \/ (vfrom = Concrete (VString "") /\ exists w, tto = TInt w \/ tto = TUint w).
Proof.
  split.
  - intros Hp. unfold unmarshall in Hp.
    destruct vfrom as [v|v]; simpl in Hp.
    + destruct v as [|b|w n|w n|f|f|s|n|e l]; simpl in Hp; [by left | ..];
        try (by repeat case_match).
      * repeat case_match; try done. by rewrite unmarshallFloat_no_panic in Hp.
      * repeat case_match; try done. by rewrite unmarshallFloat_no_panic in Hp.
      * right. repeat case_match; try done.
        apply unmarshallString_panics in Hp as [-> Hw]. done.
    + by repeat case_match.
  - intros [-> | [-> [w [-> | ->]]]]; [done | by destruct w..].
Qed.

End Panics.

(** * The claims *)

Section Claims.
Context `{GoLib}.

(** C1.  The unit-suffix path does not report a result outside the
    destination width: ["1K"] into an int8 or a uint8 slot gives 0 with
    no error, and ["-1K"] into a uint64 slot gives 2^64 - 1024 with no
    error, whereas the plain literal ["1024"] into an int8 slot is
    refused with a range error. *)
Theorem unit_suffix_overflow_not_reported :
  unmarshall (TInt I8) (Concrete (VString "1K")) = Ok (VInt I8 0)
  /\ unmarshall (TUint I8) (Concrete (VString "1K")) = Ok (VUint I8 0)
  /\ unmarshall (TUint I64) (Concrete (VString "-1K"))
     = Ok (VUint I64 18446744073709550592)
  /\ unmarshall (TInt I8) (Concrete (VString "1024"))
     = Err (NumError "ParseInt" "1024" ErrRange).
Proof. repeat split; vm_compute; reflexivity. Qed.

(** C5.  [Uint64] holds its result in an int64 variable: the text of
    the largest uint64 is refused with a range error and the value
    returned is 0; a uint64 value itself is refused as well. *)
Theorem Uint64_is_signed :
  Uint64 (VString "18446744073709551615")
  = Ok (VInt I64 0, Some (NumError "ParseInt" "18446744073709551615" ErrRange))
  /\ Uint64 (VUint I64 18446744073709551615)
     = Ok (VInt I64 0,
           Some (errorString ("Don't know how to unmarshall uint64 to int64" +:+ nl))).
Proof. split; vm_compute; reflexivity. Qed.

(** C9.  The empty string coerced into an integer slot of any width,
    signed or unsigned, ends in the index-out-of-range panic of
    [getBytes], which reads [s[len(s)-1]] of the empty string. *)
Theorem empty_string_to_integer_panics (w : isize) (err : error) :
  getBytes "" err = Panic "runtime error: index out of range [-1]"
  /\ unmarshall (TInt w) (Concrete (VString ""))
     = Panic "runtime error: index out of range [-1]"
  /\ unmarshall (TUint w) (Concrete (VString ""))
     = Panic "runtime error: index out of range [-1]".
Proof. repeat split; destruct w; vm_compute; reflexivity. Qed.

(** C7.  A field that can be written and whose key resolves to the nil
    value is set to the zero value of its type, and the step appends no
    message and does not panic. *)
Theorem nil_value_sets_zero f cur from formats :
  settable f = Some true ->
  findVal (Name f) from formats = Ok Nil ->
  value (bind_field f cur from formats) = Zero (Typ f)
  /\ msgs (bind_field f cur from formats) = []
  /\ panicked (bind_field f cur from formats) = None.
Proof. intros Hs Hf. unfold bind_field. rewrite Hs, Hf. done. Qed.

(** C8.  [findVal] returns the value under the first rendered key that
    is in the map, whatever the later patterns would match; with the
    patterns ["--%s"] and ["-%s"] and a map holding both ["--foo"] and
    ["-foo"], the field [foo] gets the value under ["--foo"]. *)
Theorem first_matching_pattern_wins :
  (forall name from pre pat post v,
      Forall (fun p => from !! Sprintf p name = None) pre ->
      from !! Sprintf pat name = Some v ->
      findVal name from (pre ++ pat :: post) = Ok v)
  /\ (forall (from : gmap string val) a b,
        from !! "--foo" = Some a -> from !! "-foo" = Some b ->
        @findVal golib "foo" from ["--%s"; "-%s"] = Ok a).
Proof.
  split.
  - intros name from pre pat post v. apply findVal_first_hit.
  - intros from a b Ha Hb.
    apply (findVal_first_hit (H := golib) "foo" from [] "--%s" ["-%s"] a); [constructor |].
    exact Ha.
Qed.

(** A slice given for a slice-typed field: the field becomes a slice of
    the length of the source; element [i] is what [unmarshall] makes of
    element [i] of the source (the zero value where it returns an error),
    for each [i] the loop reaches, which is every [i] unless the coercion
    of an element panics; and the binding of the package documentation
    turns ["5"], ["12"], ["0.5k"] into 5, 12, 512. *)
Theorem slice_to_slice_preserves_order :
  (forall f cur from formats ts l te,
      settable f = Some true ->
      findVal (Name f) from formats = Ok (VSlice ts l) ->
      Typ f = TSlice te ->
      exists dst,
        value (bind_field f cur from formats) = VSlice te dst
        /\ length dst = length l
        /\ (forall i x, l !! i = Some x ->
              Forall (fun y => is_Panic (unmarshall te (Index ts y)) = false)
                     (take (S i) l) ->
              match unmarshall te (Index ts x) with
              | Ok v => dst !! i = Some v
              | _ => dst !! i = Some (Zero te)
              end)
        /\ (panicked (bind_field f cur from formats) = None
            <-> Forall (fun y => is_Panic (unmarshall te (Index ts y)) = false) l))
  /\ @Struct golib (PtrToStruct [(intslice, VSlice (TInt I) [])])
       {[ "--intslice" := strings ["5"; "12"; "0.5k"] ]} ["--%s"; "-%s"]
     = (PtrToStruct [(intslice, VSlice (TInt I) [VInt I 5; VInt I 12; VInt I 512])],
        Ok tt).
Proof.
  split; [| vm_compute; reflexivity].
  intros f cur from formats ts l te Hs Hf Ht.
  rewrite (bind_field_slice_to_slice f cur from formats ts l te Hs Hf Ht).
  destruct (elems_spec te ts l) as [[dst errs] p] eqn:E.
  exists dst. cbn [value panicked]. repeat split.
  - eapply elems_spec_length; eauto.
  - intros i x Hi Hnp.
    pose proof (elems_spec_reached _ _ _ _ _ _ E i x Hi Hnp) as Hd.
    unfold elem_result in Hd. by destruct (unmarshall te (Index ts x)).
  - by apply (elems_spec_panicked _ _ _ _ _ _ E).
  - by apply (elems_spec_panicked _ _ _ _ _ _ E).
Qed.

(** C3.  An empty string among the elements stops the element loop by
    the panic of [getBytes]: for ["5"], [""], ["7"] given for a []int
    field the call panics and the field is left as 5, 0, 0, although the
    coercion of the third element alone gives 7. *)
Theorem empty_element_stops_the_slice :
  @bind_field golib Items_field (VSlice (TInt I) [VInt I 1])
              {[ "Items" := strings ["5"; ""; "7"] ]} []
  = {| value := VSlice (TInt I) [VInt I 5; VInt I 0; VInt I 0];
       msgs := [];
       panicked := Some "runtime error: index out of range [-1]" |}
  /\ @unmarshall golib (TInt I) (Index TString (VString "7")) = Ok (VInt I 7)
  /\ @Struct golib (PtrToStruct [(Items_field, VSlice (TInt I) [VInt I 1])])
             {[ "Items" := strings ["5"; ""; "7"] ]} []
     = (PtrToStruct [(Items_field, VSlice (TInt I) [VInt I 5; VInt I 0; VInt I 0])],
        Panic "runtime error: index out of range [-1]").
Proof. repeat split; vm_compute; reflexivity. Qed.

(** C4.  A panic in a later field discards the messages accumulated
    before it: with no key for [Name] and the empty string for [Count],
    the step of [Name] appends its message, the step of [Count] panics in
    [getBytes], and the call ends in that panic and returns no error. *)
Theorem panic_discards_accumulated_messages :
  msgs (@bind_field golib Name_field (VString "prior") {[ "Count" := VString "" ]} [])
  = ["Coerce: [Nam] not found in map"]
  /\ @Struct golib
             (PtrToStruct [(Name_field, VString "prior"); (Count_field, VInt I 7)])
             {[ "Count" := VString "" ]} []
     = (PtrToStruct [(Name_field, VString "prior"); (Count_field, VInt I 7)],
        Panic "runtime error: index out of range [-1]").
Proof. split; vm_compute; reflexivity. Qed.

(** C10.  A slice given for a slice-typed field replaces the field by a
    slice built from [length l] zero values, whatever the field held:
    the element loop starts from that slice, an element whose coercion
    does not succeed stays zero, and when none succeeds all stay zero. *)
Theorem slice_field_replaced_by_fresh_slice f cur from formats ts l te :
  settable f = Some true ->
  findVal (Name f) from formats = Ok (VSlice ts l) ->
  Typ f = TSlice te ->
  (bind_field f cur from formats
   = let '(dst, errs, p) :=
       slice_loop te ts l (seq 0 (length l)) (replicate (length l) (Zero te)) [] in
     {| value := VSlice te dst; msgs := errs; panicked := p |})
  /\ (forall cur', bind_field f cur' from formats = bind_field f cur from formats)
  /\ exists dst,
       value (bind_field f cur from formats) = VSlice te dst
       /\ length dst = length l
       /\ (forall i x, l !! i = Some x ->
             is_Ok (unmarshall te (Index ts x)) = false -> dst !! i = Some (Zero te))
       /\ (Forall (fun x => is_Ok (unmarshall te (Index ts x)) = false) l ->
             dst = replicate (length l) (Zero te)).
Proof.
  intros Hs Hf Ht. split; [| split].
  - rewrite slice_loop_spec. by apply bind_field_slice_to_slice.
  - intros cur'.
    by rewrite !(bind_field_slice_to_slice f _ from formats ts l te Hs Hf Ht).
  - rewrite (bind_field_slice_to_slice f cur from formats ts l te Hs Hf Ht).
    destruct (elems_spec te ts l) as [[dst errs] p] eqn:E.
    exists dst. simpl. repeat split.
    + eapply elems_spec_length; eauto.
    + eapply elems_spec_failed; eauto.
    + eapply elems_spec_all_fail; eauto.
Qed.

(** C2.  With no key in the map, the message of [findVal] lacks the
    last byte of the last key tried: for the field [Name] and no
    pattern it is "Coerce: [Nam] not found in map", which does not
    contain the key ["Name"]; with the patterns ["--%s"] and ["-%s"] it
    lists "--Name|-Nam".  The field keeps its value. *)
Theorem not_found_message_drops_last_byte :
  @bind_field golib Name_field (VString "prior") ∅ []
  = failed (VString "prior") "Coerce: [Nam] not found in map"
  /\ Contains "Coerce: [Nam] not found in map" "Name" = false
  /\ @bind_field golib Name_field (VString "prior") ∅ ["--%s"; "-%s"]
     = failed (VString "prior") "Coerce: [--Name|-Nam] not found in map".
Proof. repeat split; vm_compute; reflexivity. Qed.

(** For a pointer to a struct and a call in which no field panics:
    the error returned is nil exactly when no message was appended;
    otherwise it is one error whose text is the messages of all fields
    in order, joined by newlines, so each message occurs in it. *)
Theorem Struct_error_aggregates_all_messages fs from formats :
  Forall (fun fc => panicked (bind_field (fst fc) (snd fc) from formats) = None) fs ->
  (snd (Struct (PtrToStruct fs) from formats) = Ok tt
   <-> all_msgs fs from formats = [])
  /\ (all_msgs fs from formats <> [] ->
      snd (Struct (PtrToStruct fs) from formats)
      = Err (errorString (String.concat nl (all_msgs fs from formats))))
  /\ (forall msg, msg ∈ all_msgs fs from formats ->
        exists pre post,
          snd (Struct (PtrToStruct fs) from formats)
          = Err (errorString (pre +:+ msg +:+ post))).
Proof.
  intros Hnp. rewrite (Struct_no_panic fs from formats Hnp). cbn [snd].
  destruct (all_msgs fs from formats) as [|m ms] eqn:E.
  - repeat split; try done. intros msg Hin. by apply elem_of_nil in Hin.
  - repeat split; try done.
    intros msg Hin.
    destruct (concat_member nl (m :: ms) msg Hin) as [pre [post ->]]. eauto.
Qed.

(** C6, as amended.  A slice given for a field that is neither a slice
    nor an empty interface.  A sole element is handed to [unmarshall] as
    element 0 of the slice: an element of a slice of a concrete element
    type is coerced into the field as a value of its own type; an element
    of a []interface{} is of Kind Interface, so that a text field takes
    its rendering and every other field refuses it, whatever it holds.
    Any other length appends the message
    "Coerce: can't coerce <field> from multi-value slice", which names
    the field, and leaves the field as it was. *)
Theorem slice_to_scalar_cardinality f cur from formats ts l :
  settable f = Some true ->
  findVal (Name f) from formats = Ok (VSlice ts l) ->
  kind_of (Typ f) <> KSlice ->
  Typ f <> TInterface ->
  (forall x, l = [x] ->
     bind_field f cur from formats = unmarshall_into cur (Typ f) (Index ts x))
  /\ (forall x, l = [x] -> ts <> TInterface ->
        bind_field f cur from formats = unmarshall_into cur (Typ f) (Concrete x))
  /\ (forall x, l = [x] -> ts = TInterface ->
        bind_field f cur from formats
        = if bool_decide (Typ f = TString) then wrote (VString (Sprint x))
          else failed cur ("Don't know how to unmarshall interface {} to "
                           +:+ type_String (Typ f) +:+ nl))
  /\ (length l <> 1%nat ->
      bind_field f cur from formats
      = failed cur ("Coerce: can't coerce " +:+ Name f +:+ " from multi-value slice")
      /\ Contains ("Coerce: can't coerce " +:+ Name f +:+ " from multi-value slice")
                  (Name f) = true).
Proof.
  intros Hs Hf Hk Hi.
  assert (Value_AssignableTo (Typ f) = false) as Hv
    by (unfold Value_AssignableTo; by apply bool_decide_eq_false).
  assert (forall x, l = [x] ->
            bind_field f cur from formats = unmarshall_into cur (Typ f) (Index ts x))
    as Hone.
  { intros x ->. unfold bind_field. rewrite Hs, Hf. cbn [typeof]. rewrite Hv.
    destruct (Typ f); simpl in *; congruence. }
  split; [exact Hone | split; [| split]].
  - intros x Hl Hts. rewrite (Hone x Hl). unfold Index.
    by rewrite bool_decide_false.
  - intros x Hl ->. rewrite (Hone x Hl).
    destruct (Typ f) as [|w|w| | | | |te|]; try done; by destruct w.
  - intros Hl. split; [| apply Contains_app].
    assert ((length l =? 1)%nat = false) as Hl' by by apply Nat.eqb_neq.
    unfold bind_field. rewrite Hs, Hf. cbn [typeof]. rewrite Hv.
    destruct (Typ f); try congruence; try (by rewrite Hl').
    by simpl in Hk.
Qed.

End Claims.

(** C6, as stated: the message for a slice of two elements does not hold
    the length 2; it is the message a slice of no element gets.  And the
    sole element 10 of a []interface{} is not coerced into an int field,
    which the value 10 given alone is. *)
Lemma cardinality_message_lacks_length :
  ~ (forall l : list string, length l <> 1%nat ->
       exists msg,
         msgs (@bind_field golib X_field (VString "prior")
                 {[ "--X" := strings l ]} ["--%s"]) = [msg]
         /\ Contains msg (Name X_field) = true
         /\ Contains msg (strconv.FormatInt (Z.of_nat (length l))) = true)
  /\ @bind_field golib Count_field (VInt I 0)
                 {[ "--Count" := VSlice TInterface [VInt I 10] ]} ["--%s"]
     = failed (VInt I 0) ("Don't know how to unmarshall interface {} to int" +:+ nl)
  /\ @bind_field golib Count_field (VInt I 0) {[ "--Count" := VInt I 10 ]} ["--%s"]
     = wrote (VInt I 10).
Proof.
  split; [| split; vm_compute; reflexivity].
  intros Hall. destruct (Hall ["a"; "b"]) as [msg [Hm [_ Hc]]]; [simpl; lia |].
  vm_compute in Hm. injection Hm as <-. vm_compute in Hc. discriminate.
Qed.

(** ** The claims at concrete inputs *)

(** Scenario 4: the key of [Flag] holds nil. *)
Lemma nil_value_sets_zero_witness :
  let st := @bind_field golib Flag_field (VBool true) {[ "--Flag" := Nil ]} ["--%s"] in
  value st = VBool false /\ msgs st = [] /\ panicked st = None.
Proof.
  apply (nil_value_sets_zero (H := golib) Flag_field (VBool true)
           {[ "--Flag" := Nil ]} ["--%s"]);
    vm_compute; reflexivity.
Defined.

(** The pattern ["++%s"] matches no key; ["--%s"] is the first that does. *)
Lemma first_matching_pattern_wins_witness :
  @findVal golib "foo" {[ "--foo" := VString "long"; "-foo" := VString "short" ]}
           (["++%s"] ++ "--%s" :: ["-%s"])
  = Ok (VString "long").
Proof.
  apply (proj1 (first_matching_pattern_wins (H := golib))).
  - repeat constructor.
  - vm_compute; reflexivity.
Defined.

(** The binding of the package documentation. *)
Lemma slice_to_slice_preserves_order_witness :
  exists dst,
    value (@bind_field golib intslice (VSlice (TInt I) [VInt I 1])
             {[ "--intslice" := strings ["5"; "12"; "0.5k"] ]} ["--%s"; "-%s"])
    = VSlice (TInt I) dst
    /\ length dst = 3%nat
    /\ dst !! 2%nat = Some (VInt I 512).
Proof.
  destruct (proj1 (slice_to_slice_preserves_order (H := golib))
              intslice (VSlice (TInt I) [VInt I 1])
              {[ "--intslice" := strings ["5"; "12"; "0.5k"] ]} ["--%s"; "-%s"]
              TString (map VString ["5"; "12"; "0.5k"]) (TInt I))
    as [dst [Hv [Hl [Hi _]]]].
  - vm_compute; reflexivity.
  - vm_compute; reflexivity.
  - reflexivity.
  - exists dst. split; [exact Hv | split; [exact Hl |]].
    apply (Hi 2%nat (VString "0.5k") eq_refl). repeat constructor.
Defined.

(** The second element cannot be coerced; the prior element 1 is gone. *)
Lemma slice_field_replaced_by_fresh_slice_witness :
  value (@bind_field golib intslice (VSlice (TInt I) [VInt I 1])
           {[ "--intslice" := strings ["5"; "x"] ]} ["--%s"])
  = VSlice (TInt I) [VInt I 5; VInt I 0].
Proof.
  destruct (slice_field_replaced_by_fresh_slice (H := golib)
              intslice (VSlice (TInt I) [VInt I 1])
              {[ "--intslice" := strings ["5"; "x"] ]} ["--%s"]
              TString (map VString ["5"; "x"]) (TInt I))
    as [Hloop _].
  - vm_compute; reflexivity.
  - vm_compute; reflexivity.
  - reflexivity.
  - rewrite Hloop. vm_compute; reflexivity.
Defined.

(** Two fields fail in one call: [Name] has no key, [Count] has a text
    that is no number. *)
Lemma Struct_error_aggregates_all_messages_witness :
  snd (@Struct golib
         (PtrToStruct [(Name_field, VString "prior"); (Count_field, VInt I 7)])
         {[ "Count" := VString "abc" ]} [])
  = Err (errorString
           (String.concat nl
              ["Coerce: [Nam] not found in map";
               "strconv.ParseInt: parsing " +:+ dquote +:+ "abc" +:+ dquote
               +:+ ": invalid syntax"])).
Proof.
  destruct (Struct_error_aggregates_all_messages (H := golib)
              [(Name_field, VString "prior"); (Count_field, VInt I 7)]
              {[ "Count" := VString "abc" ]} [])
    as [_ [Herr _]].
  - repeat constructor.
  - rewrite Herr; [vm_compute; reflexivity | vm_compute; discriminate].
Defined.

(** Scenario 6: two elements for the scalar field [X]; and the sole
    element of a []interface{} for the int field [Count]. *)
Lemma slice_to_scalar_cardinality_witness :
  @bind_field golib X_field (VString "prior") {[ "--X" := strings ["a"; "b"] ]} ["--%s"]
  = failed (VString "prior") "Coerce: can't coerce X from multi-value slice"
  /\ @bind_field golib Count_field (VInt I 0)
                 {[ "--Count" := VSlice TInterface [VInt I 10] ]} ["--%s"]
     = failed (VInt I 0) ("Don't know how to unmarshall interface {} to int" +:+ nl).
Proof.
  split.
  - destruct (slice_to_scalar_cardinality (H := golib)
                X_field (VString "prior") {[ "--X" := strings ["a"; "b"] ]} ["--%s"]
                TString (map VString ["a"; "b"]))
      as [_ [_ [_ Hmany]]].
    + vm_compute; reflexivity.
    + vm_compute; reflexivity.
    + discriminate.
    + discriminate.
    + destruct Hmany as [Hb _]; [simpl; lia | exact Hb].
  - destruct (slice_to_scalar_cardinality (H := golib)
                Count_field (VInt I 0)
                {[ "--Count" := VSlice TInterface [VInt I 10] ]} ["--%s"]
                TInterface [VInt I 10])
      as [_ [_ [Hboxed _]]].
    + vm_compute; reflexivity.
    + vm_compute; reflexivity.
    + discriminate.
    + discriminate.
    + exact (Hboxed (VInt I 10) eq_refl eq_refl).
Defined.

(** ["2M"] into an int64 slot (scenario 2) and ["-3k"] into an int16 slot. *)
Lemma unit_suffix_in_range_witness :
  @unmarshall golib (TInt I64) (Concrete (VString "2M")) = Ok (VInt I64 2097152)
  /\ @unmarshall golib (TInt I16) (Concrete (VString "-3k")) = Ok (VInt I16 (- 3072)).
Proof.
  split.
  - apply (proj1 (unit_suffix_in_range (H := golib) "M" (2 ^ 20) 2 I64 eq_refl
                    ltac:(lia))).
    vm_compute. split; congruence.
  - apply (proj1 (unit_suffix_in_range (H := golib) "k" (2 ^ 10) (- 3) I16 eq_refl
                    ltac:(lia))).
    vm_compute. split; congruence.
Defined.

(** ** The scenarios of the specification, run on [golib] *)

Example scenario_count :
  @Struct golib (PtrToStruct [(Count_field, VInt I 0)])
          {[ "--Count" := VString "10" ]} ["--%s"]
  = (PtrToStruct [(Count_field, VInt I 10)], Ok tt).
Proof. vm_compute; reflexivity. Qed.

Example scenario_size :
  @Struct golib
          (PtrToStruct [({| Name := "Size"; PkgPath := ""; Typ := TInt I64 |}, VInt I64 0)])
          {[ "--Size" := VString "2M" ]} ["--%s"]
  = (PtrToStruct [({| Name := "Size"; PkgPath := ""; Typ := TInt I64 |}, VInt I64 2097152)],
     Ok tt).
Proof. vm_compute; reflexivity. Qed.

Example scenario_items :
  @Struct golib
          (PtrToStruct [({| Name := "Items"; PkgPath := ""; Typ := TSlice (TInt I) |},
                         VSlice (TInt I) [])])
          {[ "--Items" := strings ["1"; "2"; "3"] ]} ["--%s"]
  = (PtrToStruct [({| Name := "Items"; PkgPath := ""; Typ := TSlice (TInt I) |},
                   VSlice (TInt I) [VInt I 1; VInt I 2; VInt I 3])],
     Ok tt).
Proof. vm_compute; reflexivity. Qed.

Example scenario_flag :
  @Struct golib (PtrToStruct [(Flag_field, VBool true)]) {[ "--Flag" := Nil ]} ["--%s"]
  = (PtrToStruct [(Flag_field, VBool false)], Ok tt).
Proof. vm_compute; reflexivity. Qed.

(** The binding of the package documentation, all three fields. *)
Example documentation_example :
  @Struct golib
          (PtrToStruct [(intslice, VSlice (TInt I) []); (boolval, VBool false);
                        (s_field, VString "")])
          {[ "--intslice" := strings ["5"; "12"; "0.5k"];
             "--boolval" := VBool true;
             "-s" := VString "hello" ]}
          ["--%s"; "-%s"]
  = (PtrToStruct [(intslice, VSlice (TInt I) [VInt I 5; VInt I 12; VInt I 512]);
                  (boolval, VBool true); (s_field, VString "hello")],
     Ok tt).
Proof. vm_compute; reflexivity. Qed.

(** A []interface{} source is not coerced element by element into an
    integer slice: each element is of Kind Interface. *)
Example interface_elements_are_refused :
  value (@bind_field golib intslice (VSlice (TInt I) [])
           {[ "--intslice" := VSlice TInterface [VString "5"; VInt I 7] ]} ["--%s"])
  = VSlice (TInt I) [VInt I 0; VInt I 0].
Proof. vm_compute; reflexivity. Qed.

(** * Further properties *)

(** ** Decimal literals and the width of the slot *)

Lemma ParseUint_loop_digit_range maxVal d rest acc :
  0 <= d < 10 -> 0 <= acc -> maxVal <= maxUint64 -> maxVal < acc * 10 + d ->
  strconv.ParseUint_loop maxVal (String (of_byte (48 + d)) rest) acc = inr ErrRange.
Proof.
  intros Hd Hacc Hmax Hbig. simpl.
  destruct (is_digit_of_byte d Hd) as [-> ->].
  destruct (strconv.cutoff <=? acc) eqn:Hc; [done |].
  apply Z.leb_gt in Hc. change strconv.cutoff with 1844674407370955162 in Hc.
  unfold maxUint64 in Hmax. change (2 ^ 64 - 1) with 18446744073709551615 in Hmax.
  unfold uint64, to_uint. change (2 ^ 64) with 18446744073709551616.
  destruct (Z_lt_le_dec (acc * 10 + d) 18446744073709551616) as [Hs | Hl].
  - rewrite Z.mod_small by lia.
    assert ((maxVal <? acc * 10 + d) = true) as -> by (apply Z.ltb_lt; lia).
    by rewrite orb_true_r.
  - assert ((acc * 10 + d) mod 18446744073709551616
            = acc * 10 + d - 18446744073709551616) as ->.
    { symmetry. apply Z.mod_unique with 1; lia. }
    assert ((acc * 10 + d - 18446744073709551616 <? acc * 10) = true) as ->
      by (apply Z.ltb_lt; lia).
    done.
Qed.

(** The digit loop refuses the digits of a number above [maxVal]. *)
Lemma ParseUint_loop_digits_range maxVal fuel : forall n rest acc,
  0 <= n < 2 ^ Z.of_nat (S fuel) -> 0 <= acc -> maxVal <= maxUint64 ->
  maxVal < acc * 10 ^ Z.of_nat (len (strconv.digits (S fuel) n)) + n ->
  strconv.ParseUint_loop maxVal (strconv.digits (S fuel) n +:+ rest) acc = inr ErrRange.
Proof.
  induction fuel as [|fuel IH]; intros n rest acc Hn Hacc Hmax Hbig;
    change (strconv.digits (S ?f) n)
      with (if n <? 10 then String (of_byte (48 + n)) ""
            else strconv.digits f (n / 10) +:+ String (of_byte (48 + n mod 10)) "") in *;
    destruct (n <? 10) eqn:Hlt.
  - apply Z.ltb_lt in Hlt. rewrite app_cons, app_nil_s.
    change (Z.of_nat (len (String (of_byte (48 + n)) ""))) with 1 in Hbig.
    rewrite Z.pow_1_r in Hbig. apply ParseUint_loop_digit_range; lia.
  - apply Z.ltb_ge in Hlt. change (2 ^ Z.of_nat 1) with 2 in Hn. lia.
  - apply Z.ltb_lt in Hlt. rewrite app_cons, app_nil_s.
    change (Z.of_nat (len (String (of_byte (48 + n)) ""))) with 1 in Hbig.
    rewrite Z.pow_1_r in Hbig. apply ParseUint_loop_digit_range; lia.
  - apply Z.ltb_ge in Hlt.
    rewrite len_app in Hbig.
    change (len (String (of_byte (48 + n mod 10)) "")) with 1%nat in Hbig.
    rewrite Nat2Z.inj_add, Z.pow_add_r in Hbig by lia.
    change (Z.of_nat 1) with 1 in Hbig. rewrite Z.pow_1_r in Hbig.
    set (P := 10 ^ Z.of_nat (len (strconv.digits (S fuel) (n / 10)))) in *.
    assert (0 < P) by (apply Z.pow_pos_nonneg; lia).
    pose proof (Z.div_mod n 10 ltac:(lia)) as Hdm.
    pose proof (Z.mod_pos_bound n 10 ltac:(lia)) as Hmod.
    assert (0 <= n / 10) by (apply Z.div_pos; lia).
    assert (n / 10 < 2 ^ Z.of_nat (S fuel)).
    { rewrite (Nat2Z.inj_succ (S fuel)), Z.pow_succ_r in Hn by lia.
      apply Z.div_lt_upper_bound; lia. }
    rewrite app_assoc_s.
    destruct (Z_lt_le_dec maxVal (acc * P + n / 10)) as [Hover | Hfit].
    + apply IH; [lia | done | done | done].
    + rewrite ParseUint_loop_digits by first [done | lia].
      fold P. rewrite app_cons, app_nil_s.
      apply ParseUint_loop_digit_range; nia.
Qed.

Lemma pow2_half (bits : Z) : 1 <= bits -> 2 ^ bits = 2 * 2 ^ (bits - 1).
Proof.
  intros Hb. replace bits with (Z.succ (bits - 1)) at 1 by lia.
  apply Z.pow_succ_r. lia.
Qed.

Lemma pow2_le_64 (bits : Z) : 0 <= bits <= 64 -> 1 <= 2 ^ bits <= 2 ^ 64.
Proof.
  intros Hb. split.
  - change 1 with (2 ^ 0). apply Z.pow_le_mono_r; lia.
  - apply Z.pow_le_mono_r; lia.
Qed.

(** [ParseUint] on the decimal text of a non-negative number. *)
Lemma ParseUint_core_FormatUint_cases n bitSize :
  0 <= n -> 0 <= bitSize <= 64 ->
  strconv.ParseUint_core (strconv.FormatUint n) bitSize
  = if n <? 2 ^ bitSize then inl n else inr ErrRange.
Proof.
  intros Hn Hb. pose proof (pow2_le_64 bitSize Hb) as Hp.
  destruct (n <? 2 ^ bitSize) eqn:Hlt.
  - apply Z.ltb_lt in Hlt. apply ParseUint_core_FormatUint; unfold maxUint64; lia.
  - apply Z.ltb_ge in Hlt. unfold strconv.ParseUint_core, strconv.FormatUint.
    destruct (digits_head (Z.to_nat (Z.log2 n)) n Hn) as [c [rest [Hd _]]].
    assert (String.eqb (strconv.digits (S (Z.to_nat (Z.log2 n))) n) "" = false) as ->
      by (rewrite Hd; done).
    pose proof (ParseUint_loop_digits_range (2 ^ bitSize - 1)
                  (Z.to_nat (Z.log2 n)) n "" 0) as Hl.
    rewrite app_empty_r in Hl. apply Hl.
    + split; [done | by apply FormatUint_fuel].
    + done.
    + unfold maxUint64. lia.
    + lia.
Qed.

(** [ParseInt] on the decimal text of a number, for each bit size. *)
Lemma ParseInt_FormatInt_cases n bitSize :
  2 <= bitSize <= 64 ->
  strconv.ParseInt (strconv.FormatInt n) bitSize
  = if (- 2 ^ (bitSize - 1) <=? n) && (n <? 2 ^ (bitSize - 1)) then Ok n
    else Err (NumError "ParseInt" (strconv.FormatInt n) ErrRange).
Proof.
  intros Hb. pose proof (pow2_half bitSize ltac:(lia)) as Hh.
  pose proof (pow2_le_64 (bitSize - 1) ltac:(lia)) as Hp.
  assert (2 ^ (bitSize - 1) <= 2 ^ 63) as Hp63 by (apply Z.pow_le_mono_r; lia).
  assert (2 <= 2 ^ (bitSize - 1)) as Hp2
    by (change 2 with (2 ^ 1) at 1; apply Z.pow_le_mono_r; lia).
  unfold strconv.FormatInt. destruct (n <? 0) eqn:Hneg.
  - apply Z.ltb_lt in Hneg.
    assert ((n <? 2 ^ (bitSize - 1)) = true) as -> by (apply Z.ltb_lt; lia).
    rewrite andb_true_r.
    change ("-" +:+ strconv.FormatUint (- n)) with (String "-" (strconv.FormatUint (- n))).
    unfold strconv.ParseInt.
    change (Ascii.eqb "-" "-") with true. change (Ascii.eqb "-" "+") with false.
    cbv iota. simpl orb. cbv iota.
    rewrite ParseUint_core_FormatUint_cases by lia.
    destruct (- n <? 2 ^ bitSize) eqn:Hfit.
    + simpl negb. simpl andb. cbv iota.
      destruct (2 ^ (bitSize - 1) <? - n) eqn:Hc.
      * apply Z.ltb_lt in Hc.
        assert ((- 2 ^ (bitSize - 1) <=? n) = false) as -> by (apply Z.leb_gt; lia).
        done.
      * apply Z.ltb_ge in Hc.
        assert ((- 2 ^ (bitSize - 1) <=? n) = true) as -> by (apply Z.leb_le; lia).
        f_equal. unfold int64, to_int. change (2 ^ (64 - 1)) with (2 ^ 63).
        change (2 ^ 64) with (2 * 2 ^ 63).
        destruct (Z.eq_dec n (- 2 ^ 63)) as [-> | Hne]; [done |].
        rewrite (Z.mod_small (- n + 2 ^ 63)) by lia.
        replace (- (- n + 2 ^ 63 - 2 ^ 63) + 2 ^ 63) with (n + 2 ^ 63) by lia.
        rewrite Z.mod_small by lia. lia.
    + apply Z.ltb_ge in Hfit. simpl negb. simpl andb. cbv iota.
      assert ((2 ^ (bitSize - 1) <? 2 ^ bitSize - 1) = true) as ->
        by (apply Z.ltb_lt; lia).
      assert ((- 2 ^ (bitSize - 1) <=? n) = false) as -> by (apply Z.leb_gt; lia).
      done.
  - apply Z.ltb_ge in Hneg.
    assert ((- 2 ^ (bitSize - 1) <=? n) = true) as -> by (apply Z.leb_le; lia).
    rewrite andb_true_l. unfold strconv.FormatUint.
    destruct (digits_head (Z.to_nat (Z.log2 n)) n Hneg) as [c [rest [Hd Hc]]].
    unfold strconv.ParseInt. rewrite Hd.
    destruct (is_digit_not_sign c Hc) as [-> ->]. simpl orb. cbv iota.
    rewrite <- Hd. fold (strconv.FormatUint n).
    rewrite ParseUint_core_FormatUint_cases by lia.
    simpl negb. rewrite !andb_true_l, !andb_false_l.
    destruct (n <? 2 ^ bitSize) eqn:Hfit.
    + destruct (2 ^ (bitSize - 1) <=? n) eqn:Hc'.
      * apply Z.leb_le in Hc'.
        assert ((n <? 2 ^ (bitSize - 1)) = false) as -> by (apply Z.ltb_ge; lia). done.
      * apply Z.leb_gt in Hc'.
        assert ((n <? 2 ^ (bitSize - 1)) = true) as -> by (apply Z.ltb_lt; lia).
        f_equal. unfold int64, to_int. change (2 ^ (64 - 1)) with (2 ^ 63).
        change (2 ^ 64) with (2 * 2 ^ 63).
        rewrite Z.mod_small by lia. lia.
    + apply Z.ltb_ge in Hfit.
      assert ((2 ^ (bitSize - 1) <=? 2 ^ bitSize - 1) = true) as ->
        by (apply Z.leb_le; lia).
      assert ((n <? 2 ^ (bitSize - 1)) = false) as -> by (apply Z.ltb_ge; lia). done.
Qed.

Lemma digits_snoc fuel n : 0 <= n ->
  exists pre, strconv.digits (S fuel) n = pre +:+ String (of_byte (48 + n mod 10)) "".
Proof.
  intros Hn.
  change (strconv.digits (S fuel) n)
    with (if n <? 10 then String (of_byte (48 + n)) ""
          else strconv.digits fuel (n / 10) +:+ String (of_byte (48 + n mod 10)) "").
  destruct (n <? 10) eqn:Hlt.
  - apply Z.ltb_lt in Hlt. exists "". rewrite Z.mod_small by lia. done.
  - by eexists.
Qed.

Lemma FormatInt_snoc n :
  exists pre c, strconv.FormatInt n = pre +:+ String c "" /\ strconv.is_digit c = true.
Proof.
  unfold strconv.FormatInt, strconv.FormatUint. destruct (n <? 0) eqn:Hneg.
  - apply Z.ltb_lt in Hneg.
    destruct (digits_snoc (Z.to_nat (Z.log2 (- n))) (- n) ltac:(lia)) as [pre ->].
    exists ("-" +:+ pre), (of_byte (48 + - n mod 10)). split.
    + by rewrite app_assoc_s.
    + apply is_digit_of_byte, Z.mod_pos_bound. lia.
  - apply Z.ltb_ge in Hneg.
    destruct (digits_snoc (Z.to_nat (Z.log2 n)) n Hneg) as [pre ->].
    exists pre, (of_byte (48 + n mod 10)). split; [done |].
    apply is_digit_of_byte, Z.mod_pos_bound. lia.
Qed.

Section Literals.
Context `{GoLib}.

Lemma is_digit_no_unit c : strconv.is_digit c = true -> mult_of c = None.
Proof.
  destruct c as [[] [] [] [] [] [] [] []]; vm_compute; intros; (done || congruence).
Qed.

(** A text that ends in a digit gets the error it came with. *)
Lemma getBytes_FormatInt n err : getBytes (strconv.FormatInt n) err = Err err.
Proof.
  destruct (FormatInt_snoc n) as [pre [c [-> Hc]]].
  unfold getBytes. by rewrite last_byte_snoc, (is_digit_no_unit c Hc).
Qed.

Lemma unmarshall_decimal_int (w : isize) (n : Z) :
  unmarshall (TInt w) (Concrete (VString (strconv.FormatInt n)))
  = if (- 2 ^ (size_bits w - 1) <=? n) && (n <? 2 ^ (size_bits w - 1))
    then Ok (VInt w n)
    else Err (NumError "ParseInt" (strconv.FormatInt n) ErrRange).
Proof.
  pose proof (size_bits_pos w) as Hw.
  rewrite unmarshall_string_int, ParseInt_FormatInt_cases by lia.
  destruct (_ && _) eqn:Hr.
  - apply andb_true_iff in Hr as [Hlo%Z.leb_le Hhi%Z.ltb_lt].
    simpl. by rewrite to_int_small by lia.
  - by rewrite getBytes_FormatInt.
Qed.

(** A decimal literal coerced into a signed slot is stored when the
    width of the slot holds it and is refused with a range error when it
    does not. *)
Theorem decimal_literal_into_int (w : isize) (n : Z) :
  unmarshall (TInt w) (Concrete (VString (strconv.FormatInt n)))
  = if (- 2 ^ (size_bits w - 1) <=? n) && (n <? 2 ^ (size_bits w - 1))
    then Ok (VInt w n)
    else Err (NumError "ParseInt" (strconv.FormatInt n) ErrRange).
Proof. apply unmarshall_decimal_int. Qed.

Lemma unmarshall_decimal_uint (w : isize) (n : Z) :
  unmarshall (TUint w) (Concrete (VString (strconv.FormatInt n)))
  = if n <? 0 then Err (NumError "ParseUint" (strconv.FormatInt n) ErrSyntax)
    else if n <? 2 ^ size_bits w then Ok (VUint w n)
    else Err (NumError "ParseUint" (strconv.FormatInt n) ErrRange).
Proof.
  pose proof (size_bits_pos w) as Hw.
  rewrite unmarshall_string_uint. unfold strconv.ParseUint.
  destruct (n <? 0) eqn:Hneg.
  - assert (strconv.ParseUint_core (strconv.FormatInt n) (size_bits w) = inr ErrSyntax) as ->.
    { unfold strconv.FormatInt. rewrite Hneg.
      change ("-" +:+ strconv.FormatUint (- n))
        with (String "-" (strconv.FormatUint (- n))). done. }
    by rewrite getBytes_FormatInt.
  - apply Z.ltb_ge in Hneg.
    assert (strconv.FormatInt n = strconv.FormatUint n) as Hf.
    { unfold strconv.FormatInt. by assert ((n <? 0) = false) as -> by by apply Z.ltb_ge. }
    rewrite Hf at 1. rewrite ParseUint_core_FormatUint_cases by lia.
    destruct (n <? 2 ^ size_bits w) eqn:Hfit.
    + apply Z.ltb_lt in Hfit. simpl. by rewrite to_uint_small by lia.
    + by rewrite getBytes_FormatInt.
Qed.

(** A decimal literal coerced into an unsigned slot: a negative one is a
    syntax error, one the width holds is stored, a larger one is a range
    error. *)
Theorem decimal_literal_into_uint (w : isize) (n : Z) :
  unmarshall (TUint w) (Concrete (VString (strconv.FormatInt n)))
  = if n <? 0 then Err (NumError "ParseUint" (strconv.FormatInt n) ErrSyntax)
    else if n <? 2 ^ size_bits w then Ok (VUint w n)
    else Err (NumError "ParseUint" (strconv.FormatInt n) ErrRange).
Proof. apply unmarshall_decimal_uint. Qed.

End Literals.

(** ** What a coercion stores *)

Lemma to_int_range (bits x : Z) :
  1 <= bits -> - 2 ^ (bits - 1) <= to_int bits x < 2 ^ (bits - 1).
Proof.
  intros Hb. unfold to_int. pose proof (pow2_half bits Hb) as Hh.
  assert (0 < 2 ^ (bits - 1)) by (apply Z.pow_pos_nonneg; lia).
  pose proof (Z.mod_pos_bound (x + 2 ^ (bits - 1)) (2 ^ bits) ltac:(lia)). lia.
Qed.

Lemma to_uint_range (bits x : Z) : 0 <= bits -> 0 <= to_uint bits x < 2 ^ bits.
Proof.
  intros Hb. unfold to_uint. apply Z.mod_pos_bound. by apply Z.pow_pos_nonneg.
Qed.

Section Stored.
Context `{GoLib}.

Lemma SetInt_stores tto x v :
  SetInt tto x = Ok v -> typeof v = Some tto /\ in_width v.
Proof.
  destruct tto as [|w|w| | | | |e|]; try done; intros [= <-]; [| done].
  split; [done |]. simpl. apply to_int_range. pose proof (size_bits_pos w). lia.
Qed.

Lemma SetUint_stores tto x v :
  SetUint tto x = Ok v -> typeof v = Some tto /\ in_width v.
Proof.
  destruct tto as [|w|w| | | | |e|]; try done; intros [= <-].
  split; [done |]. simpl. apply to_uint_range. pose proof (size_bits_pos w). lia.
Qed.

Lemma SetFloat_stores tto x v :
  SetFloat tto x = Ok v -> typeof v = Some tto /\ in_width v.
Proof. destruct tto as [|w|w| | | | |e|]; try done; by intros [= <-]. Qed.

Lemma unmarshallString_stores tto s v :
  unmarshallString tto s = Ok v -> typeof v = Some tto /\ in_width v.
Proof.
  unfold unmarshallString.
  destruct (String.eqb (type_String tto) "time.Duration") eqn:Hd.
  - apply String.eqb_eq in Hd.
    assert (tto = TDuration) as ->.
    { destruct tto as [|w|w| | | | |e|]; try done; by destruct w. }
    destruct (ParseDuration s); [| done]. by intros [= <-].
  - destruct (is_int_kind (kind_of tto)).
    { destruct (strconv.ParseInt s (Bits tto)) as [i|err|p]; [apply SetInt_stores | | done].
      destruct (getBytes s err); [apply SetInt_stores | done..]. }
    destruct (is_uint_kind (kind_of tto)).
    { destruct (strconv.ParseUint s (Bits tto)) as [i|err|p]; [apply SetUint_stores | | done].
      destruct (getBytes s err); [apply SetUint_stores | done..]. }
    destruct (is_float_kind (kind_of tto)); [| done].
    destruct (ParseFloat s (Bits tto)); [apply SetFloat_stores | done].
Qed.

Lemma unmarshallFloat_stores tto f v :
  unmarshallFloat tto f = Ok v -> typeof v = Some tto /\ in_width v.
Proof.
  unfold unmarshallFloat.
  destruct (is_int_kind (kind_of tto)); [apply SetInt_stores |].
  destruct (is_uint_kind (kind_of tto)); [apply SetUint_stores | done].
Qed.

(** What [unmarshall] stores in a slot that is no empty interface has the
    type of the slot, and an integer it makes from a text or a float lies
    within the range of that type. *)
Theorem unmarshall_stores_slot_type tto vfrom v :
  unmarshall tto vfrom = Ok v ->
  tto <> TInterface ->
  typeof v = Some tto
  /\ ((exists s, vfrom = Concrete (VString s))
      \/ (exists f, vfrom = Concrete (VFloat32 f) \/ vfrom = Concrete (VFloat64 f)) ->
      in_width v).
Proof.
  intros Hu Hi. unfold unmarshall in Hu.
  destruct (Value_Type vfrom) as [tfrom|] eqn:Ht; [| done].
  destruct (AssignableTo tfrom tto) eqn:Ha.
  { injection Hu as <-. unfold AssignableTo in Ha.
    apply orb_true_iff in Ha as [Ha%bool_decide_eq_true | Ha%bool_decide_eq_true];
      [subst tfrom | done].
    destruct vfrom as [v0|v0]; simpl in *; [| congruence].
    split; [done |]. intros [[s [= ->]] | [f [[= ->] | [= ->]]]]; done. }
  destruct (bool_decide (kind_of tto = KString)) eqn:Hk.
  { injection Hu as <-. apply bool_decide_eq_true in Hk.
    destruct tto as [|w|w| | | | |e|]; try done; by destruct w. }
  destruct vfrom as [v0|v0]; [| done].
  destruct v0 as [|b|w n|w n|f|f|s|n|e l]; try done.
  - apply unmarshallFloat_stores in Hu as [? ?]. done.
  - apply unmarshallFloat_stores in Hu as [? ?]. done.
  - apply unmarshallString_stores in Hu as [? ?]. done.
Qed.

Lemma unmarshall_TString vfrom :
  unmarshall TString vfrom
  = match Value_Type vfrom with
    | None => Panic "reflect: call of reflect.Value.Type on zero Value"
    | Some _ => Ok (VString (Sprint (Interface vfrom)))
    end.
Proof.
  unfold unmarshall. destruct (Value_Type vfrom) as [tfrom|] eqn:Ht; [| done].
  destruct (AssignableTo tfrom TString) eqn:Ha; [| done].
  unfold AssignableTo in Ha. rewrite orb_false_r in Ha.
  apply bool_decide_eq_true in Ha as ->.
  destruct vfrom as [v0|v0]; simpl in *; [| done].
  by destruct v0.
Qed.

(** A text destination takes every non-nil source: it gets the [%v]
    rendering of the value; only the nil source panics. *)
Theorem unmarshall_into_text vfrom :
  unmarshall TString vfrom
  = match Value_Type vfrom with
    | None => Panic "reflect: call of reflect.Value.Type on zero Value"
    | Some _ => Ok (VString (Sprint (Interface vfrom)))
    end.
Proof. apply unmarshall_TString. Qed.

Lemma String_Sprint from :
  String_ from
  = match from with
    | Nil => Panic "reflect: call of reflect.Value.Type on zero Value"
    | _ => Ok (VString (Sprint from))
    end.
Proof.
  unfold String_, wrapper, Var. rewrite unmarshall_TString. by destruct from.
Qed.

(** [String(from)] is the [%v] rendering of every non-nil value, and
    panics on nil. *)
Theorem String_is_Sprint from :
  String_ from
  = match from with
    | Nil => Panic "reflect: call of reflect.Value.Type on zero Value"
    | _ => Ok (VString (Sprint from))
    end.
Proof. apply String_Sprint. Qed.

(** A float source coerced into an integer, unsigned or duration slot
    never gives an error: its integer part is narrowed to the slot. *)
Theorem float_into_integer_never_fails (f : spec_float) (w : isize) :
  unmarshall (TInt w) (Concrete (VFloat64 f))
  = Ok (VInt w (to_int (size_bits w) (float64_to_int64 f)))
  /\ unmarshall (TUint w) (Concrete (VFloat64 f))
     = Ok (VUint w (to_uint (size_bits w) (float64_to_uint64 f)))
  /\ unmarshall TDuration (Concrete (VFloat64 f))
     = Ok (VDuration (to_int 64 (float64_to_int64 f)))
  /\ unmarshall (TInt w) (Concrete (VFloat32 f))
     = Ok (VInt w (to_int (size_bits w) (float64_to_int64 f))).
Proof. repeat split; by destruct w. Qed.

Lemma unmarshall_other_kinds tto vfrom tfrom :
  Value_Type vfrom = Some tfrom ->
  AssignableTo tfrom tto = false ->
  tto <> TString ->
  (forall s, vfrom <> Concrete (VString s)) ->
  (forall f, vfrom <> Concrete (VFloat32 f) /\ vfrom <> Concrete (VFloat64 f)) ->
  unmarshall tto vfrom
  = Err (errorString ("Don't know how to unmarshall " +:+ type_String tfrom
                      +:+ " to " +:+ type_String tto +:+ nl)).
Proof.
  intros Ht Ha Hs Hns Hnf. unfold unmarshall. rewrite Ht, Ha.
  assert (bool_decide (kind_of tto = KString) = false) as ->.
  { apply bool_decide_eq_false.
    destruct tto as [|w|w| | | | |e|]; try done; by destruct w. }
  destruct vfrom as [v0|v0]; [| done].
  destruct v0 as [|b|w n|w n|f|f|s|n|e l]; try done.
  - by destruct (Hnf f) as [? _].
  - by destruct (Hnf f) as [_ ?].
  - by destruct (Hns s).
Qed.

(** A source that is neither a text nor a float is coerced only by
    assignment or into a text: any other destination is refused with
    "Don't know how to unmarshall". *)
Theorem unmarshall_refuses_other_kinds tto vfrom tfrom :
  Value_Type vfrom = Some tfrom ->
  AssignableTo tfrom tto = false ->
  tto <> TString ->
  (forall s, vfrom <> Concrete (VString s)) ->
  (forall f, vfrom <> Concrete (VFloat32 f) /\ vfrom <> Concrete (VFloat64 f)) ->
  unmarshall tto vfrom
  = Err (errorString ("Don't know how to unmarshall " +:+ type_String tfrom
                      +:+ " to " +:+ type_String tto +:+ nl)).
Proof. apply unmarshall_other_kinds. Qed.

End Stored.

(** ** Unit letters and round trips *)

Section Units.
Context `{GoLib}.

Lemma mult_of_ToUpper c : mult_of (ToUpper_byte c) = mult_of c.
Proof. destruct c as [[] [] [] [] [] [] [] []]; reflexivity. Qed.

(** The unit letter is read without regard to its case: a text and the
    same text with its last byte upper-cased give the same result. *)
Theorem getBytes_case_insensitive (s : string) (c : ascii) (err : error) :
  getBytes (s +:+ String (ToUpper_byte c) "") err = getBytes (s +:+ String c "") err.
Proof.
  unfold getBytes. by rewrite !last_byte_snoc, !drop_last_snoc, mult_of_ToUpper.
Qed.

(** The text [String] makes of an integer is read back by [Var] as that
    integer, for each signed and unsigned type and each value of it. *)
Theorem String_then_Var_round_trip (w : isize) (n : Z) :
  (- 2 ^ (size_bits w - 1) <= n < 2 ^ (size_bits w - 1) ->
   exists s, String_ (VInt w n) = Ok (VString s)
             /\ Var (TInt w) (VString s) = Ok (VInt w n))
  /\ (0 <= n < 2 ^ size_bits w ->
      exists s, String_ (VUint w n) = Ok (VString s)
                /\ Var (TUint w) (VString s) = Ok (VUint w n)).
Proof.
  split; intros Hn; exists (strconv.FormatInt n); rewrite String_Sprint;
    (split; [done |]); unfold Var.
  - rewrite unmarshall_decimal_int.
    assert ((- 2 ^ (size_bits w - 1) <=? n) = true) as -> by (apply Z.leb_le; lia).
    by assert ((n <? 2 ^ (size_bits w - 1)) = true) as -> by (apply Z.ltb_lt; lia).
  - rewrite unmarshall_decimal_uint.
    assert ((n <? 0) = false) as -> by (apply Z.ltb_ge; lia).
    by assert ((n <? 2 ^ size_bits w) = true) as -> by (apply Z.ltb_lt; lia).
Qed.

End Units.

(** ** findVal *)

Section Resolution.
Context `{GoLib}.

Lemma findVal_patterns_tried name from formats :
  findVal name from formats = findVal name from (patterns_tried formats).
Proof. by destruct formats. Qed.

Lemma findVal_loop_ok name from formats : forall tried r tried',
  findVal_loop name from formats tried = (r, true, tried') ->
  exists pre pat post,
    formats = pre ++ pat :: post
    /\ Forall (fun p => from !! Sprintf p name = None) pre
    /\ from !! Sprintf pat name = Some r.
Proof.
  induction formats as [|p formats IH]; intros tried r tried' Hl; simpl in Hl; [done |].
  destruct (from !! Sprintf p name) as [v|] eqn:Hp.
  - injection Hl as <- <-. exists [], p, formats. repeat split; [constructor | done].
  - destruct (IH _ _ _ Hl) as [pre [pat [post [-> [Hpre Hpat]]]]].
    exists (p :: pre), pat, post. repeat split; [by constructor | done].
Qed.

(** [findVal] returns a value exactly when some pattern tried renders a
    key of the map, and then the value under the first such key. *)
Theorem findVal_Ok_iff name from formats v :
  findVal name from formats = Ok v
  <-> exists pre pat post,
        patterns_tried formats = pre ++ pat :: post
        /\ Forall (fun p => from !! Sprintf p name = None) pre
        /\ from !! Sprintf pat name = Some v.
Proof.
  rewrite findVal_patterns_tried. split.
  - unfold findVal.
    assert ((length (patterns_tried formats) =? 0)%nat = false) as ->
      by by destruct formats.
    destruct (findVal_loop name from (patterns_tried formats) "")
      as [[r ok] tried'] eqn:Hl.
    destruct ok.
    + intros [= ->]. by apply (findVal_loop_ok _ _ _ _ _ _ Hl).
    + by destruct (len tried' <? 2)%nat.
  - intros [pre [pat [post [-> [Hpre Hpat]]]]]. by apply findVal_first_hit.
Qed.

End Resolution.

(** ** Fields *)

Section Fields.
Context `{GoLib}.

(** The step of a field either writes a value that does not depend on
    what the field held, or leaves the field as it was; its messages and
    its panic do not depend on what the field held. *)
Lemma bind_field_shape f from formats :
  exists (o : option val) ms p, forall cur,
    bind_field f cur from formats
    = {| value := default cur o; msgs := ms; panicked := p |}.
Proof.
  unfold bind_field, unmarshall_into.
  destruct (settable f) as [[]|];
    [| by eexists None, _, _ | by eexists None, _, _].
  destruct (findVal (Name f) from formats) as [v|e|p];
    [| by eexists None, _, _ | by eexists None, _, _].
  destruct v as [|b|w n|w n|fl|fl|s|n|ts l]; try (by eexists (Some _), _, _);
    (destruct (Value_AssignableTo (Typ f)); [by eexists (Some _), _, _ |]);
    try (match goal with
         | |- context [unmarshall ?t ?x] =>
             destruct (unmarshall t x);
             [by eexists (Some _), _, _ | by eexists None, _, _ | by eexists None, _, _]
         end).
  destruct (Typ f) as [|w|w| | | | |te|];
    try (destruct (length l =? 1)%nat; [| by eexists None, _, _];
         destruct (l !! 0%nat) as [x|]; [| by eexists None, _, _];
         destruct (unmarshall _ (Index ts x));
         [by eexists (Some _), _, _ | by eexists None, _, _ | by eexists None, _, _]).
  destruct (slice_loop te ts l _ _ _) as [[dst errs] p].
  by eexists (Some _), _, _.
Qed.

Lemma bind_field_again f cur from formats :
  bind_field f (value (bind_field f cur from formats)) from formats
  = bind_field f cur from formats.
Proof.
  destruct (bind_field_shape f from formats) as [o [ms [p Hs]]].
  rewrite !Hs. simpl. by destruct o.
Qed.

Lemma bind_field_msgs_any f cur cur' from formats :
  msgs (bind_field f cur from formats) = msgs (bind_field f cur' from formats)
  /\ panicked (bind_field f cur from formats) = panicked (bind_field f cur' from formats).
Proof.
  destruct (bind_field_shape f from formats) as [o [ms [p Hs]]]. by rewrite !Hs.
Qed.

Lemma fields_loop_again from formats fs : forall errstr,
  fields_loop (fst (fields_loop fs from formats errstr)) from formats errstr
  = fields_loop fs from formats errstr.
Proof.
  induction fs as [|[f cur] fs IH]; intros errstr; [done |]. simpl.
  destruct (panicked (bind_field f cur from formats)) as [p|] eqn:Hp.
  - simpl. by rewrite bind_field_again, Hp.
  - specialize (IH (append_msgs errstr (msgs (bind_field f cur from formats)))).
    destruct (fields_loop fs from formats _) as [rest' r] eqn:Hr. simpl in *.
    by rewrite bind_field_again, Hp, IH.
Qed.

(** Binding the same map again changes nothing: [Struct] on the target
    it has left gives the same target and the same error. *)
Theorem Struct_idempotent to from formats :
  Struct (fst (Struct to from formats)) from formats = Struct to from formats.
Proof.
  destruct to as [fs|k]; [| done]. unfold Struct.
  pose proof (fields_loop_again from formats fs "") as Ha.
  destruct (fields_loop fs from formats "") as [fs' r] eqn:Hr. simpl in *.
  by rewrite Ha.
Qed.

Lemma fields_loop_result_any from formats fs fs' : forall errstr,
  map fst fs = map fst fs' ->
  snd (fields_loop fs from formats errstr) = snd (fields_loop fs' from formats errstr).
Proof.
  revert fs'. induction fs as [|[f cur] fs IH]; intros [|[f' cur'] fs'] errstr Hm;
    try done.
  injection Hm as <- Hm. simpl.
  destruct (bind_field_msgs_any f cur cur' from formats) as [-> ->].
  destruct (panicked (bind_field f cur' from formats)); [done |].
  specialize (IH fs' (append_msgs errstr (msgs (bind_field f cur' from formats))) Hm).
  destruct (fields_loop fs from formats _) as [r1 e1].
  destruct (fields_loop fs' from formats _) as [r2 e2]. done.
Qed.

(** The error [Struct] returns depends on the fields, the map and the
    patterns, not on the values the struct held. *)
Theorem Struct_error_ignores_prior_values fs fs' from formats :
  map fst fs = map fst fs' ->
  snd (Struct (PtrToStruct fs) from formats) = snd (Struct (PtrToStruct fs') from formats).
Proof.
  intros Hm. unfold Struct.
  pose proof (fields_loop_result_any from formats fs fs' "" Hm) as Hr.
  destruct (fields_loop fs from formats "") as [r1 e1].
  destruct (fields_loop fs' from formats "") as [r2 e2]. simpl in *. by subst.
Qed.

(** In a call that does not panic every field ends with the value of its
    own step, whatever the other fields do: a field that is coerced stays
    set when another field reports an error. *)
Theorem Struct_fields_are_independent fs from formats i f cur :
  Forall (fun fc => panicked (bind_field (fst fc) (snd fc) from formats) = None) fs ->
  fs !! i = Some (f, cur) ->
  target_fields (fst (Struct (PtrToStruct fs) from formats)) !! i
  = Some (f, value (bind_field f cur from formats)).
Proof.
  intros Hnp Hi. rewrite (Struct_no_panic fs from formats Hnp). simpl.
  by rewrite list_lookup_fmap, Hi.
Qed.

(** A field of the empty interface type takes the value of its key as
    it is, slices included. *)
Theorem interface_field_takes_value f cur from formats v :
  settable f = Some true ->
  findVal (Name f) from formats = Ok v ->
  Typ f = TInterface ->
  bind_field f cur from formats = wrote v.
Proof.
  intros Hs Hf Ht. unfold bind_field. rewrite Hs, Hf, Ht. by destruct v.
Qed.

Lemma unmarshall_same_type tto v :
  typeof v = Some tto -> unmarshall tto (Concrete v) = Ok v.
Proof.
  intros Ht. unfold unmarshall. simpl. rewrite Ht.
  unfold AssignableTo. by rewrite bool_decide_true.
Qed.

(** A value of the very type of the field, a slice apart, is assigned as
    it is. *)
Theorem same_type_is_assigned f cur from formats v :
  settable f = Some true ->
  findVal (Name f) from formats = Ok v ->
  typeof v = Some (Typ f) ->
  kind_of (Typ f) <> KSlice ->
  bind_field f cur from formats = wrote v.
Proof.
  intros Hs Hf Ht Hk. unfold bind_field. rewrite Hs, Hf.
  destruct (Value_AssignableTo (Typ f));
    [by destruct v | unfold unmarshall_into; rewrite (unmarshall_same_type _ _ Ht)].
  destruct v as [|b|w n|w n|fl|fl|s|n|ts l]; try done.
  injection Ht as Ht. by rewrite <- Ht in Hk.
Qed.

End Fields.

(** ** Slices and unexported fields *)

Section Slices.
Context `{GoLib}.

Lemma elems_spec_all_ok te ts (g : val -> val) l :
  (forall x, x ∈ l -> unmarshall te (Index ts x) = Ok (g x)) ->
  elems_spec te ts l = (map g l, [], None).
Proof.
  induction l as [|x l IH]; intros Hall; [done |]. simpl.
  rewrite (Hall x) by apply list_elem_of_here.
  rewrite IH; [done |]. intros y Hy. apply Hall. by apply list_elem_of_further.
Qed.

Lemma elems_spec_all_err te ts e l :
  (forall x, x ∈ l -> unmarshall te (Index ts x) = Err e) ->
  elems_spec te ts l
  = (replicate (length l) (Zero te), replicate (length l) (Error e), None).
Proof.
  induction l as [|x l IH]; intros Hall; [done |]. simpl.
  rewrite (Hall x) by apply list_elem_of_here.
  rewrite IH; [done |]. intros y Hy. apply Hall. by apply list_elem_of_further.
Qed.

(** A slice of the very type of the field is copied element by element:
    the field ends equal to the source. *)
Theorem same_type_slice_is_copied f cur from formats te l :
  settable f = Some true ->
  findVal (Name f) from formats = Ok (VSlice te l) ->
  Typ f = TSlice te ->
  te = TInterface \/ Forall (fun x => typeof x = Some te) l ->
  bind_field f cur from formats = wrote (VSlice te l).
Proof.
  intros Hs Hf Ht Hl.
  rewrite (bind_field_slice_to_slice f cur from formats te l te Hs Hf Ht).
  rewrite (elems_spec_all_ok te te (fun x => x)); [by rewrite map_id |].
  intros x Hx. destruct Hl as [-> | Hall].
  - done.
  - rewrite Forall_forall in Hall. specialize (Hall x Hx).
    unfold Index. destruct (bool_decide (te = TInterface)) eqn:Hi.
    + apply bool_decide_eq_true in Hi. subst te. done.
    + by apply unmarshall_same_type.
Qed.

(** A slice given for a field of type []string is never refused: each
    element becomes its [%v] rendering. *)
Theorem slice_into_strings f cur from formats ts l :
  settable f = Some true ->
  findVal (Name f) from formats = Ok (VSlice ts l) ->
  Typ f = TSlice TString ->
  ts = TInterface \/ Forall (fun x => x <> Nil) l ->
  bind_field f cur from formats
  = wrote (VSlice TString (map (fun x => VString (Sprint x)) l)).
Proof.
  intros Hs Hf Ht Hl.
  rewrite (bind_field_slice_to_slice f cur from formats ts l TString Hs Hf Ht).
  rewrite (elems_spec_all_ok TString ts (fun x => VString (Sprint x))); [done |].
  intros x Hx. rewrite unmarshall_TString. unfold Index.
  destruct (bool_decide (ts = TInterface)) eqn:Hi; [done |].
  destruct Hl as [-> | Hall]; [done |].
  rewrite Forall_forall in Hall. specialize (Hall x Hx). by destruct x.
Qed.

(** The elements of a []interface{} are of Kind Interface: given for a
    slice field whose elements are neither texts nor empty interfaces,
    each of them is refused, whatever it holds, and the field is left
    with zero values only. *)
Theorem interface_slice_is_refused f cur from formats l te :
  settable f = Some true ->
  findVal (Name f) from formats = Ok (VSlice TInterface l) ->
  Typ f = TSlice te ->
  te <> TString -> te <> TInterface ->
  bind_field f cur from formats
  = {| value := VSlice te (replicate (length l) (Zero te));
       msgs := replicate (length l)
                 ("Don't know how to unmarshall interface {} to "
                  +:+ type_String te +:+ nl);
       panicked := None |}.
Proof.
  intros Hs Hf Ht Hns Hni.
  rewrite (bind_field_slice_to_slice f cur from formats TInterface l te Hs Hf Ht).
  rewrite (elems_spec_all_err te TInterface
             (errorString ("Don't know how to unmarshall interface {} to "
                           +:+ type_String te +:+ nl))); [done |].
  intros x Hx.
  apply (unmarshall_other_kinds te (Boxed x) TInterface); try done.
  unfold AssignableTo. apply orb_false_iff.
  split; apply bool_decide_eq_false; congruence.
Qed.

(** A slice of one element of a concrete type, given for a field that is
    neither a slice nor an empty interface, is bound as its element
    alone would be. *)
Theorem one_element_slice_as_scalar f cur from from' formats formats' ts x :
  settable f = Some true ->
  findVal (Name f) from formats = Ok (VSlice ts [x]) ->
  findVal (Name f) from' formats' = Ok x ->
  kind_of (Typ f) <> KSlice -> Typ f <> TInterface ->
  ts <> TInterface ->
  x <> Nil -> (forall e l, x <> VSlice e l) ->
  bind_field f cur from formats = bind_field f cur from' formats'.
Proof.
  intros Hs Hf Hf' Hk Hi Hts Hx Hsl. unfold bind_field. rewrite Hs, Hf, Hf'.
  assert (Value_AssignableTo (Typ f) = false) as ->
    by (unfold Value_AssignableTo; by apply bool_decide_eq_false).
  assert (Index ts x = Concrete x) as Hix
    by (unfold Index; by rewrite bool_decide_false).
  destruct (Typ f) as [|w|w| | | | |te|] eqn:Ht; try done; simpl; rewrite Hix;
    destruct x as [|b|w' n|w' n|fl|fl|s|n|e l]; try done; by destruct (Hsl e l).
Qed.

Lemma ascii_not_capital_is_own_lower c :
  byte c < 128 -> in_range "A" "Z" c = false -> is_own_lower c = true.
Proof.
  destruct c as [[] [] [] [] [] [] [] []]; vm_compute; intros; (done || congruence).
Qed.

(** An unexported field whose name starts with an ASCII byte is bound
    exactly as an exported field of that name and type. *)
Theorem unexported_ascii_field_is_bound f cur from formats c rest :
  Name f = String c rest ->
  byte c < 128 -> in_range "A" "Z" c = false ->
  bind_field f cur from formats = bind_field (exported f) cur from formats.
Proof.
  intros Hn Hc Hu. unfold bind_field, settable, CanSet. simpl. rewrite Hn. simpl.
  rewrite (ascii_not_capital_is_own_lower c Hc Hu). by destruct (String.eqb _ _).
Qed.

(** An unexported field whose name starts with a byte from 0xC0 to 0xDE,
    0xD7 apart (the byte 0xC3 that starts a Latin letter with an accent,
    for one), is not written: its step is the "!CanSet()" message,
    whatever the map holds. *)
Theorem unexported_latin1_field_is_refused f cur from formats c rest :
  PkgPath f <> "" ->
  Name f = String c rest ->
  192 <= byte c <= 222 -> byte c <> 215 ->
  bind_field f cur from formats = failed cur ("Coerce: !CanSet() field " +:+ Name f).
Proof.
  intros Hp Hn Hc Hx. unfold bind_field, settable, CanSet.
  apply String.eqb_neq in Hp. rewrite Hp, Hn. simpl.
  assert (is_own_lower c = false) as ->; [| done].
  unfold is_own_lower.
  assert ((192 <=? byte c) = true) as -> by (apply Z.leb_le; lia).
  assert ((byte c <=? 222) = true) as -> by (apply Z.leb_le; lia).
  assert ((byte c =? 215) = false) as -> by (apply Z.eqb_neq; lia).
  simpl. by rewrite orb_true_r.
Qed.

End Slices.

(** ** The further properties at concrete inputs *)

Lemma findVal_not_found_witness :
  @findVal golib "Name" ∅ ["--%s"; "-%s"]
  = Err (errorString "Coerce: [--Name|-Nam] not found in map").
Proof.
  rewrite (findVal_not_found (H := golib) "Name" ∅ ["--%s"; "-%s"]).
  - vm_compute; reflexivity.
  - discriminate.
  - repeat constructor.
Defined.

(** ["300B"] into an int8 slot: 300 narrowed to 44. *)
Lemma unmarshall_stores_slot_type_witness :
  @unmarshall golib (TInt I8) (Concrete (VString "300B")) = Ok (VInt I8 44)
  /\ typeof (VInt I8 44) = Some (TInt I8) /\ in_width (VInt I8 44).
Proof.
  assert (@unmarshall golib (TInt I8) (Concrete (VString "300B")) = Ok (VInt I8 44))
    as Hu by (vm_compute; reflexivity).
  split; [exact Hu |].
  destruct (unmarshall_stores_slot_type (H := golib) (TInt I8)
              (Concrete (VString "300B")) (VInt I8 44) Hu) as [Ht Hw].
  - discriminate.
  - split; [exact Ht |]. apply Hw. left. by eexists.
Defined.

(** [Int64] of an [int]: the types differ, the value is refused. *)
Lemma unmarshall_refuses_other_kinds_witness :
  @unmarshall golib (TInt I64) (Concrete (VInt I 5))
  = Err (errorString ("Don't know how to unmarshall int to int64" +:+ nl)).
Proof.
  apply (unmarshall_refuses_other_kinds (H := golib) (TInt I64) (Concrete (VInt I 5)) (TInt I)).
  - reflexivity.
  - reflexivity.
  - discriminate.
  - discriminate.
  - split; discriminate.
Defined.

Lemma String_then_Var_round_trip_witness :
  exists s, @String_ golib (VInt I8 (- 128)) = Ok (VString s)
            /\ @Var golib (TInt I8) (VString s) = Ok (VInt I8 (- 128)).
Proof.
  apply (proj1 (String_then_Var_round_trip (H := golib) I8 (- 128))).
  vm_compute. split; congruence.
Defined.

Lemma Struct_error_ignores_prior_values_witness :
  snd (@Struct golib (PtrToStruct [(Name_field, VString "a"); (Count_field, VInt I 1)])
         {[ "Count" := VString "x" ]} [])
  = snd (@Struct golib (PtrToStruct [(Name_field, VString "b"); (Count_field, VInt I 2)])
           {[ "Count" := VString "x" ]} []).
Proof.
  apply (Struct_error_ignores_prior_values (H := golib)). reflexivity.
Defined.

(** [Name] has no key and reports it; [Count] is set all the same. *)
Lemma Struct_fields_are_independent_witness :
  target_fields
    (fst (@Struct golib (PtrToStruct [(Name_field, VString "prior"); (Count_field, VInt I 7)])
            {[ "Count" := VString "10" ]} [])) !! 1%nat
  = Some (Count_field, VInt I 10).
Proof.
  rewrite (Struct_fields_are_independent (H := golib)
             [(Name_field, VString "prior"); (Count_field, VInt I 7)]
             {[ "Count" := VString "10" ]} [] 1%nat Count_field (VInt I 7)).
  - vm_compute; reflexivity.
  - repeat constructor.
  - reflexivity.
Defined.

Lemma interface_field_takes_value_witness :
  @bind_field golib Any_field Nil {[ "Any" := strings ["a"; "b"] ]} []
  = wrote (strings ["a"; "b"]).
Proof.
  apply (interface_field_takes_value (H := golib)); vm_compute; reflexivity.
Defined.

Lemma same_type_is_assigned_witness :
  @bind_field golib boolval (VBool false) {[ "--boolval" := VBool true ]} ["--%s"]
  = wrote (VBool true).
Proof.
  apply (same_type_is_assigned (H := golib)); try (vm_compute; reflexivity).
  discriminate.
Defined.

Lemma same_type_slice_is_copied_witness :
  @bind_field golib Items_field (VSlice (TInt I) [])
              {[ "Items" := VSlice (TInt I) [VInt I 3; VInt I 4] ]} []
  = wrote (VSlice (TInt I) [VInt I 3; VInt I 4]).
Proof.
  apply (same_type_slice_is_copied (H := golib)); try (vm_compute; reflexivity).
  right. repeat constructor.
Defined.

Lemma slice_into_strings_witness :
  @bind_field golib Tags_field (VSlice TString [])
              {[ "Tags" := VSlice (TInt I) [VInt I 3; VInt I (- 4)] ]} []
  = wrote (VSlice TString [VString "3"; VString "-4"]).
Proof.
  rewrite (slice_into_strings (H := golib) Tags_field (VSlice TString [])
             {[ "Tags" := VSlice (TInt I) [VInt I 3; VInt I (- 4)] ]} []
             (TInt I) [VInt I 3; VInt I (- 4)]).
  - vm_compute; reflexivity.
  - vm_compute; reflexivity.
  - vm_compute; reflexivity.
  - reflexivity.
  - right. repeat constructor; discriminate.
Defined.

Lemma interface_slice_is_refused_witness :
  value (@bind_field golib Items_field (VSlice (TInt I) [VInt I 9])
           {[ "Items" := VSlice TInterface [VString "1"; VInt I 2] ]} [])
  = VSlice (TInt I) [VInt I 0; VInt I 0].
Proof.
  rewrite (interface_slice_is_refused (H := golib) Items_field (VSlice (TInt I) [VInt I 9])
             {[ "Items" := VSlice TInterface [VString "1"; VInt I 2] ]} []
             [VString "1"; VInt I 2] (TInt I)).
  - reflexivity.
  - vm_compute; reflexivity.
  - vm_compute; reflexivity.
  - reflexivity.
  - discriminate.
  - discriminate.
Defined.

Lemma one_element_slice_as_scalar_witness :
  @bind_field golib Count_field (VInt I 0) {[ "Count" := strings ["10"] ]} []
  = @bind_field golib Count_field (VInt I 0) {[ "Count" := VString "10" ]} [].
Proof.
  apply (one_element_slice_as_scalar (H := golib) Count_field (VInt I 0)
           {[ "Count" := strings ["10"] ]} {[ "Count" := VString "10" ]} [] []
           TString (VString "10")); try (vm_compute; reflexivity); discriminate.
Defined.

Lemma unexported_ascii_field_is_bound_witness :
  @bind_field golib s_field (VString "") {[ "-s" := VString "hello" ]} ["--%s"; "-%s"]
  = @bind_field golib (exported s_field) (VString "")
                {[ "-s" := VString "hello" ]} ["--%s"; "-%s"].
Proof.
  apply (unexported_ascii_field_is_bound (H := golib) s_field (VString "")
           {[ "-s" := VString "hello" ]} ["--%s"; "-%s"] "s" "").
  - reflexivity.
  - vm_compute; reflexivity.
  - reflexivity.
Defined.

Lemma unexported_latin1_field_is_refused_witness :
  @bind_field golib accent_field (VString "prior")
              {[ Name accent_field := VString "new" ]} []
  = failed (VString "prior") ("Coerce: !CanSet() field " +:+ Name accent_field).
Proof.
  apply (unexported_latin1_field_is_refused (H := golib) accent_field (VString "prior")
           {[ Name accent_field := VString "new" ]} []
           (ascii_of_nat 195) (String (ascii_of_nat 169) "tat")).
  - discriminate.
  - reflexivity.
  - vm_compute. split; congruence.
  - vm_compute. congruence.
Defined.

(** ** Unit-suffixed texts beyond the width *)

Section Narrowing.
Context `{GoLib}.

(** The text of an int64 followed by a unit letter is never refused by an
    integer slot: [getBytes] gives the product reduced to an int64, and
    the slot takes it narrowed to its own width, without an error. *)
Theorem unit_suffix_is_narrowed u mult n w :
  mult_of u = Some mult -> - 2 ^ 63 <= n < 2 ^ 63 ->
  (forall err, getBytes (strconv.FormatInt n +:+ String u "") err
               = Ok (int64 (n * mult)))
  /\ unmarshall (TInt w) (Concrete (VString (strconv.FormatInt n +:+ String u "")))
     = Ok (VInt w (to_int (size_bits w) (n * mult)))
  /\ unmarshall (TUint w) (Concrete (VString (strconv.FormatInt n +:+ String u "")))
     = Ok (VUint w (to_uint (size_bits w) (n * mult))).
Proof.
  intros Hu Hn. pose proof (size_bits_pos w) as Hw.
  pose proof (mult_of_not_digit u mult Hu) as Hd. repeat split.
  - intros err. by apply getBytes_unit_suffix.
  - rewrite unmarshall_string_int.
    destruct (ParseInt_suffix (size_bits w) u (strconv.FormatInt n) Hd) as [e ->]; [lia |].
    rewrite (getBytes_unit_suffix u mult n e Hu Hn). simpl. by rewrite to_int_int64.
  - rewrite unmarshall_string_uint.
    destruct (ParseUint_suffix (size_bits w) u (strconv.FormatInt n) Hd) as [e ->].
    rewrite (getBytes_unit_suffix u mult n e Hu Hn). simpl.
    by rewrite to_uint_uint64_int64.
Qed.

End Narrowing.

(** The largest int64 with the unit K: the product wraps to -1024. *)
Lemma unit_suffix_is_narrowed_witness :
  @getBytes golib "9223372036854775807K" (errorString "") = Ok (- 1024)
  /\ @unmarshall golib (TInt I16) (Concrete (VString "40K")) = Ok (VInt I16 (- 24576)).
Proof.
  split.
  - apply (proj1 (unit_suffix_is_narrowed (H := golib) "K" (2 ^ 10)
                    9223372036854775807 I eq_refl ltac:(lia))).
  - apply (proj1 (proj2 (unit_suffix_is_narrowed (H := golib) "K" (2 ^ 10)
                           40 I16 eq_refl ltac:(lia)))).
Defined.
